(** * Notification service: dispatch core

    A shallow embedding of [src/notification/notification.service.ts]
    (class [NotificationService]) and of the part of
    [src/providers/firebase.provider.ts] it calls ([sendToDevices]),
    followed by the properties of the dispatch core.

    Conventions of the embedding.
    - JavaScript numbers that hold counters and millisecond timestamps
      are integers of [Z] (they stay far below 2^53).
    - A [Date] is its millisecond timestamp; an optional column is an
      [option].
    - [Map<string, _>], the notification table (primary key [id]) and
      string-keyed JS objects are [gmap string _].
    - The service mutates three things: its rate-limit map, the table
      behind [notificationRepo] and the queue behind
      [notificationQueue].  They are the fields of [World], threaded
      explicitly; a fourth field records the calls made to the channel
      providers.
    - Every reading of the clock ([Date.now()], [new Date()]) is an
      explicit argument of the operation that reads it.
    - The table and the queue answer every call; of the collaborators
      only the device directory is given a way to throw, which is what
      the [catch] block of [processNotification] is there for, since the
      three providers catch their own errors. *)

From stdpp Require Import gmap strings list fin_maps sorting pretty.

Local Open Scope string_scope.
Local Open Scope list_scope.
Local Open Scope Z_scope.

(** ** JavaScript truthiness of the values the service tests *)

(** [if (s)] on a [string | undefined]: absent and empty are falsy. *)
Definition truthy (s : option string) : bool :=
  match s with
  | Some s => negb (String.eqb s "")
  | None => false
  end.

(** [x ? _ : _] and [if (x)] on an optional object ([Date], record):
    a test of presence. *)
Definition isPresent {A : Type} (x : option A) : bool :=
  match x with
  | Some _ => true
  | None => false
  end.

(** A value of type [any] in [notification.data].  The service observes
    three things of such a value: whether [typeof value === 'string'],
    its truthiness, and [JSON.stringify(value)].  A non-string value is
    carried by the last two. *)
Inductive JsonValue : Type :=
  | JString (s : string)
  | JOther (isTruthy : bool) (json : string).

Definition jsTruthy (v : option JsonValue) : bool :=
  match v with
  | Some (JString s) => negb (String.eqb s "")
  | Some (JOther t _) => t
  | None => false
  end.

(** [typeof value === 'string' ? value : JSON.stringify(value)] *)
Definition stringifyValue (v : JsonValue) : string :=
  match v with
  | JString s => s
  | JOther _ json => json
  end.

(** ** Rate limiter ([checkRateLimit]) *)

Record RateEntry : Type := { count : Z; resetAt : Z }.

Definition RATE_LIMIT_WINDOW : Z := 60 * 1000.
Definition RATE_LIMIT_MAX : Z := 100.

Definition checkRateLimit (now : Z) (userId : string)
    (userRateLimits : gmap string RateEntry) : bool * gmap string RateEntry :=
  match userRateLimits !! userId with
  | None =>
      (true, <[userId := {| count := 1; resetAt := now + RATE_LIMIT_WINDOW |}]> userRateLimits)
  | Some userLimit =>
      if resetAt userLimit <? now then
        (true, <[userId := {| count := 1; resetAt := now + RATE_LIMIT_WINDOW |}]> userRateLimits)
      else if RATE_LIMIT_MAX <=? count userLimit then
        (false, userRateLimits)
      else
        (true, <[userId := {| count := count userLimit + 1; resetAt := resetAt userLimit |}]>
                 userRateLimits)
  end.

(** Successive calls of one user at the given instants; the verdicts in
    call order and the map after the last call. *)
Fixpoint checkRateLimitSeq (times : list Z) (userId : string)
    (userRateLimits : gmap string RateEntry) : list bool * gmap string RateEntry :=
  match times with
  | [] => ([], userRateLimits)
  | now :: rest =>
      let '(ok, m) := checkRateLimit now userId userRateLimits in
      let '(oks, m') := checkRateLimitSeq rest userId m in
      (ok :: oks, m')
  end.

(** Successive calls of any users, each with its instant; the verdicts
    in call order and the map after the last call. *)
Fixpoint checkRateLimitCalls (calls : list (string * Z))
    (userRateLimits : gmap string RateEntry) : list bool * gmap string RateEntry :=
  match calls with
  | [] => ([], userRateLimits)
  | (userId, now) :: rest =>
      let '(ok, m) := checkRateLimit now userId userRateLimits in
      let '(oks, m') := checkRateLimitCalls rest m in
      (ok :: oks, m')
  end.

(** The instants at which [userId] calls, and the verdicts it gets. *)
Definition callTimesOf (userId : string) (calls : list (string * Z)) : list Z :=
  (filter (λ c, c.1 = userId) calls).*2.

Definition verdictsOf (userId : string) (calls : list (string * Z)) (oks : list bool)
    : list bool :=
  (filter (λ c : (string * Z) * bool, c.1.1 = userId) (zip calls oks)).*2.

(** The entry is missing or its window is over at [now]. *)
Definition windowOver (now : Z) (e : option RateEntry) : Prop :=
  match e with
  | None => True
  | Some userLimit => resetAt userLimit < now
  end.

(** ** Entities

    [entities/notification.entity.ts] and [dto/notification.dto.ts] are
    not part of the sources at hand; the types below list the columns
    and fields the service reads and writes. *)

Inductive NotificationType : Type := PUSH | EMAIL | SMS | IN_APP.
Inductive NotificationStatus : Type :=
  PENDING | QUEUED | SENT | DELIVERED | FAILED | READ.

Global Instance NotificationType_eq_dec : EqDecision NotificationType.
Proof. solve_decision. Defined.
Global Instance NotificationStatus_eq_dec : EqDecision NotificationStatus.
Proof. solve_decision. Defined.

(** Modelled from the spec: the entity declaration is missing.  One row
    of the notification table, without its primary key [id], which is
    the key of the table ([gmap string Notification]); an entity object
    of the service is a pair of an id and a row.  The spec's data model
    gives [scheduledAt], [expiresAt], [sentAt], [readAt], [deliveredAt]
    as optional instants, [errorMessage] as the last failure reason and
    [retryCount] as a counter. *)
Record Notification : Type := {
  userId : string;
  workspaceId : option string;
  type : NotificationType;
  title : string;
  body : string;
  data : option (gmap string JsonValue);
  priority : option string;
  category : option string;
  actionUrl : option string;
  imageUrl : option string;
  status : NotificationStatus;
  scheduledAt : option Z;
  expiresAt : option Z;
  sentAt : option Z;
  readAt : option Z;
  deliveredAt : option Z;
  createdAt : Z;
  errorMessage : option string;
  retryCount : Z;
}.

Abbreviation Entity := (string * Notification)%type.

(** Assignments to the fields the service mutates. *)
Definition setStatus (v : NotificationStatus) (n : Notification) : Notification :=
  {| userId := userId n; workspaceId := workspaceId n; type := type n;
     title := title n; body := body n; data := data n; priority := priority n;
     category := category n; actionUrl := actionUrl n; imageUrl := imageUrl n;
     status := v; scheduledAt := scheduledAt n; expiresAt := expiresAt n;
     sentAt := sentAt n; readAt := readAt n; deliveredAt := deliveredAt n;
     createdAt := createdAt n; errorMessage := errorMessage n;
     retryCount := retryCount n |}.

Definition setErrorMessage (v : option string) (n : Notification) : Notification :=
  {| userId := userId n; workspaceId := workspaceId n; type := type n;
     title := title n; body := body n; data := data n; priority := priority n;
     category := category n; actionUrl := actionUrl n; imageUrl := imageUrl n;
     status := status n; scheduledAt := scheduledAt n; expiresAt := expiresAt n;
     sentAt := sentAt n; readAt := readAt n; deliveredAt := deliveredAt n;
     createdAt := createdAt n; errorMessage := v;
     retryCount := retryCount n |}.

Definition setSentAt (v : option Z) (n : Notification) : Notification :=
  {| userId := userId n; workspaceId := workspaceId n; type := type n;
     title := title n; body := body n; data := data n; priority := priority n;
     category := category n; actionUrl := actionUrl n; imageUrl := imageUrl n;
     status := status n; scheduledAt := scheduledAt n; expiresAt := expiresAt n;
     sentAt := v; readAt := readAt n; deliveredAt := deliveredAt n;
     createdAt := createdAt n; errorMessage := errorMessage n;
     retryCount := retryCount n |}.

Definition setReadAt (v : option Z) (n : Notification) : Notification :=
  {| userId := userId n; workspaceId := workspaceId n; type := type n;
     title := title n; body := body n; data := data n; priority := priority n;
     category := category n; actionUrl := actionUrl n; imageUrl := imageUrl n;
     status := status n; scheduledAt := scheduledAt n; expiresAt := expiresAt n;
     sentAt := sentAt n; readAt := v; deliveredAt := deliveredAt n;
     createdAt := createdAt n; errorMessage := errorMessage n;
     retryCount := retryCount n |}.

Definition setDeliveredAt (v : option Z) (n : Notification) : Notification :=
  {| userId := userId n; workspaceId := workspaceId n; type := type n;
     title := title n; body := body n; data := data n; priority := priority n;
     category := category n; actionUrl := actionUrl n; imageUrl := imageUrl n;
     status := status n; scheduledAt := scheduledAt n; expiresAt := expiresAt n;
     sentAt := sentAt n; readAt := readAt n; deliveredAt := v;
     createdAt := createdAt n; errorMessage := errorMessage n;
     retryCount := retryCount n |}.

Definition setRetryCount (v : Z) (n : Notification) : Notification :=
  {| userId := userId n; workspaceId := workspaceId n; type := type n;
     title := title n; body := body n; data := data n; priority := priority n;
     category := category n; actionUrl := actionUrl n; imageUrl := imageUrl n;
     status := status n; scheduledAt := scheduledAt n; expiresAt := expiresAt n;
     sentAt := sentAt n; readAt := readAt n; deliveredAt := deliveredAt n;
     createdAt := createdAt n; errorMessage := errorMessage n;
     retryCount := v |}.

(** Modelled from the spec: [SendNotificationDto] is declared in the
    missing DTO file.  Its fields are those [send] reads; [scheduledAt]
    and [expiresAt] are optional instants, so that the tests
    [dto.scheduledAt ? ...] and [dto.expiresAt ? ...] are tests of
    presence. *)
Module Dto.
Record SendNotificationDto : Type := {
  userId : string;
  workspaceId : option string;
  type : NotificationType;
  title : string;
  body : string;
  data : option (gmap string JsonValue);
  priority : option string;
  category : option string;
  actionUrl : option string;
  imageUrl : option string;
  scheduledAt : option Z;
  expiresAt : option Z;
}.
End Dto.

(** The object built by [toResponse]. *)
Module Response.
Record NotificationResponseDto : Type := {
  id : string;
  userId : string;
  workspaceId : option string;
  type : NotificationType;
  status : NotificationStatus;
  priority : option string;
  title : string;
  body : string;
  data : option (gmap string JsonValue);
  category : option string;
  actionUrl : option string;
  imageUrl : option string;
  sentAt : option Z;
  readAt : option Z;
  createdAt : Z;
}.
End Response.

Definition toResponse (notification : Entity) : Response.NotificationResponseDto :=
  let '(id, n) := notification in
  {| Response.id := id;
     Response.userId := userId n;
     Response.workspaceId := workspaceId n;
     Response.type := type n;
     Response.status := status n;
     Response.priority := priority n;
     Response.title := title n;
     Response.body := body n;
     Response.data := data n;
     Response.category := category n;
     Response.actionUrl := actionUrl n;
     Response.imageUrl := imageUrl n;
     Response.sentAt := sentAt n;
     Response.readAt := readAt n;
     Response.createdAt := createdAt n |}.

(** ** The dispatch queue

    What [notificationQueue.add(name, data, opts)] is given. *)
Module Queue.
Record Backoff : Type := { type : string; delay : Z }.
Record JobOptions : Type := { priority : Z; attempts : Z; backoff : Backoff }.
Record Job : Type := {
  name : string;
  notificationId : string;
  opts : option JobOptions;
}.
End Queue.

(** The [switch] compares with [===], case by case; [undefined] and
    every other string reach [default]. *)
Definition getPriorityValue (priority : option string) : Z :=
  match priority with
  | Some p =>
      if String.eqb p "urgent" then 1
      else if String.eqb p "high" then 2
      else if String.eqb p "normal" then 3
      else if String.eqb p "low" then 4
      else 3
  | None => 3
  end.

(** The job submitted by [send], by the scheduled sweep and by
    [retryNotification]:
    [add('send', { notificationId }, { priority, attempts: 3,
    backoff: { type: 'exponential', delay: 1000 } })]. *)
Definition sendJob (notificationId : string) (priority : option string) : Queue.Job :=
  {| Queue.name := "send";
     Queue.notificationId := notificationId;
     Queue.opts := Some {| Queue.priority := getPriorityValue priority;
                           Queue.attempts := 3;
                           Queue.backoff := {| Queue.type := "exponential";
                                               Queue.delay := 1000 |} |} |}.

(** ** Channel providers *)

(** [src/providers/firebase.provider.ts] *)
Module Firebase.
Record PushPayload : Type := {
  title : string;
  body : string;
  data : gmap string string;
  imageUrl : option string;
  priority : string;
}.

(** An element of [errors]; [tokens[idx]] is [undefined] when the SDK
    answers for more destinations than it was given. *)
Record TokenError : Type := { token : option string; error : string }.

Record PushResult : Type := {
  success : bool;
  successCount : Z;
  failureCount : Z;
  failedTokens : list (option string);
  errors : list TokenError;
}.

(** What the service reads of the Admin SDK's answer to
    [sendEachForMulticast]: per destination [resp.success] and
    [resp.error?.message], and the two counts. *)
Record SendResponse : Type := { respSuccess : bool; respErrorMessage : option string }.
Record BatchResponse : Type := {
  responses : list SendResponse;
  batchSuccessCount : Z;
  batchFailureCount : Z;
}.

(** The [forEach] over [response.responses]: the failed destinations
    in order, [resp.error?.message || 'Unknown error'] for each. *)
Fixpoint collectErrors (tokens : list string) (idx : nat) (resps : list SendResponse)
    : list TokenError :=
  match resps with
  | [] => []
  | resp :: rest =>
      if respSuccess resp then collectErrors tokens (S idx) rest
      else {| token := tokens !! idx;
              error := if truthy (respErrorMessage resp)
                       then default "" (respErrorMessage resp)
                       else "Unknown error" |}
           :: collectErrors tokens (S idx) rest
  end.

(** [sendToDevices].  [initialized] is the provider's flag; [sdk] is
    [admin.messaging().sendEachForMulticast], which either throws (the
    message of the error) or answers. *)
Definition sendToDevices (initialized : bool)
    (sdk : list string → PushPayload → string + BatchResponse)
    (tokens : list string) (payload : PushPayload) : PushResult :=
  if negb initialized then
    {| success := false;
       successCount := 0;
       failureCount := Z.of_nat (length tokens);
       failedTokens := Some <$> tokens;
       errors := (λ token, {| token := Some token; error := "Firebase not initialized" |})
                   <$> tokens |}
  else if bool_decide (length tokens = 0%nat) then
    {| success := true; successCount := 0; failureCount := 0;
       failedTokens := []; errors := [] |}
  else
    match sdk tokens payload with
    | inr response =>
        let errors := collectErrors tokens 0 (responses response) in
        {| success := batchFailureCount response =? 0;
           successCount := batchSuccessCount response;
           failureCount := batchFailureCount response;
           failedTokens := token <$> errors;
           errors := errors |}
    | inl message =>
        {| success := false;
           successCount := 0;
           failureCount := Z.of_nat (length tokens);
           failedTokens := Some <$> tokens;
           errors := (λ token, {| token := Some token; error := message |}) <$> tokens |}
    end.
End Firebase.

(** [EmailPayload]/[EmailResult] and [SmsPayload]/[SmsResult], with the
    fields the service sets and reads.  [to] and [html] come out of
    [notification.data] through an unchecked cast. *)
Module Email.
Record EmailPayload : Type := {
  to : JsonValue;
  subject : string;
  text : string;
  html : JsonValue;
}.
Record EmailResult : Type := {
  success : bool;
  messageId : option string;
  error : option string;
}.
End Email.

Module Sms.
Record SmsPayload : Type := { to : JsonValue; body : string }.
Record SmsResult : Type := {
  success : bool;
  messageId : option string;
  error : option string;
}.
End Sms.

(** A call that reached a channel provider. *)
Inductive ProviderCall : Type :=
  | PushSend (tokens : list string) (payload : Firebase.PushPayload)
  | EmailSend (payload : Email.EmailPayload)
  | SmsSend (payload : Sms.SmsPayload).

(** ** Collaborators

    The services injected into [NotificationService] whose code is
    outside the sources at hand, at their interface; the email and SMS
    providers are taken at their interface too.  [getUserDevices] may
    throw (left: the message of the error). *)
Record Device : Type := { token : string }.

Record Collaborators : Type := {
  canSendNotification : string → option string → NotificationType → bool;
  getUserDevices : string → string + list Device;
  firebaseInitialized : bool;
  sendEachForMulticast :
    list string → Firebase.PushPayload → string + Firebase.BatchResponse;
  sendEmail : Email.EmailPayload → Email.EmailResult;
  sendSms : Sms.SmsPayload → Sms.SmsResult;
}.

(** ** The state the service works on *)

Record World : Type := {
  userRateLimits : gmap string RateEntry;
  notificationRepo : gmap string Notification;
  notificationQueue : list Queue.Job;
  providerCalls : list ProviderCall;
}.

Definition setRateLimits (m : gmap string RateEntry) (w : World) : World :=
  {| userRateLimits := m; notificationRepo := notificationRepo w;
     notificationQueue := notificationQueue w; providerCalls := providerCalls w |}.

(** [notificationRepo.save(notification)]: insert or overwrite the row
    of that id. *)
Definition save (notification : Entity) (w : World) : World :=
  {| userRateLimits := userRateLimits w;
     notificationRepo := <[notification.1 := notification.2]> (notificationRepo w);
     notificationQueue := notificationQueue w; providerCalls := providerCalls w |}.

(** [notificationQueue.add(...)] *)
Definition queueAdd (job : Queue.Job) (w : World) : World :=
  {| userRateLimits := userRateLimits w; notificationRepo := notificationRepo w;
     notificationQueue := notificationQueue w ++ [job]; providerCalls := providerCalls w |}.

Definition recordCall (c : ProviderCall) (w : World) : World :=
  {| userRateLimits := userRateLimits w; notificationRepo := notificationRepo w;
     notificationQueue := notificationQueue w; providerCalls := providerCalls w ++ [c] |}.

Definition setRepo (m : gmap string Notification) (w : World) : World :=
  {| userRateLimits := userRateLimits w; notificationRepo := m;
     notificationQueue := notificationQueue w; providerCalls := providerCalls w |}.

(** The outcome of an [async] method that can reject. *)
Inductive Outcome (A : Type) : Type :=
  | Returned (a : A)
  | Thrown (message : string).
Arguments Returned {A} a.
Arguments Thrown {A} message.

(** ** [NotificationService] *)

(** The columns the store fills in on insert: the primary key and
    [createdAt]. *)
Record Generated : Type := { newId : string; newCreatedAt : Z }.

(** [send].  [now] is the clock read by [checkRateLimit]; [None] is
    [null]. *)
Definition send (env : Collaborators) (now : Z) (gen : Generated)
    (dto : Dto.SendNotificationDto) (w : World)
    : option Response.NotificationResponseDto * World :=
  let '(admitted, limits) := checkRateLimit now (Dto.userId dto) (userRateLimits w) in
  let w := setRateLimits limits w in
  if negb admitted then (None, w)
  else
    let canSend :=
      canSendNotification env (Dto.userId dto) (Dto.workspaceId dto) (Dto.type dto) in
    if negb canSend then (None, w)
    else
      let notification : Entity :=
        (newId gen,
         {| userId := Dto.userId dto;
            workspaceId := Dto.workspaceId dto;
            type := Dto.type dto;
            title := Dto.title dto;
            body := Dto.body dto;
            data := Dto.data dto;
            priority := Dto.priority dto;
            category := Dto.category dto;
            actionUrl := Dto.actionUrl dto;
            imageUrl := Dto.imageUrl dto;
            status := if isPresent (Dto.scheduledAt dto) then PENDING else QUEUED;
            scheduledAt := Dto.scheduledAt dto;
            expiresAt := Dto.expiresAt dto;
            sentAt := None; readAt := None; deliveredAt := None;
            createdAt := newCreatedAt gen;
            errorMessage := None;
            retryCount := 0 |}) in
      let w := save notification w in
      let w :=
        if isPresent (Dto.scheduledAt dto) then w
        else queueAdd (sendJob notification.1 (Dto.priority dto)) w in
      (Some (toResponse notification), w).

(** The rows a query sees, in the order the store yields them. *)
Definition rows (w : World) : list Entity := map_to_list (notificationRepo w).

(** [orderBy('n.createdAt', 'DESC')] *)
Definition newerFirst (a b : Entity) : Prop := createdAt b.2 ≤ createdAt a.2.

Global Instance newerFirst_dec a b : Decision (newerFirst a b).
Proof. unfold newerFirst. apply _. Defined.

(** [andWhere('n.workspaceId = :workspaceId')], added only under
    [if (workspaceId)]. *)
Definition inWorkspace (ws : option string) (n : Notification) : Prop :=
  if truthy ws then workspaceId n = ws else True.

Global Instance inWorkspace_dec ws n : Decision (inWorkspace ws n).
Proof. unfold inWorkspace. destruct (truthy ws); apply _. Defined.

(** [getUserNotifications(userId, workspaceId?, page = 0, limit = 20)]:
    the page of responses and [total], the count of all matching rows
    ([getManyAndCount]). *)
Definition getUserNotifications (user : string) (ws : option string)
    (page limit : option nat) (w : World)
    : list Response.NotificationResponseDto * nat :=
  let page := default 0%nat page in
  let limit := default 20%nat limit in
  let matching :=
    filter (λ e : Entity, userId e.2 = user ∧ type e.2 = IN_APP ∧ inWorkspace ws e.2)
           (rows w) in
  let notifications := take limit (drop (page * limit) (merge_sort newerFirst matching)) in
  (toResponse <$> notifications, length matching).

Definition getUnreadCount (user : string) (ws : option string) (w : World) : nat :=
  length (filter (λ e : Entity, userId e.2 = user ∧ type e.2 = IN_APP ∧
                                status e.2 ≠ READ ∧ inWorkspace ws e.2)
                 (rows w)).

(** [update({ id: In(notificationIds), userId }, { status: READ,
    readAt: new Date() })] *)
Definition markAsRead (now : Z) (user : string) (notificationIds : list string)
    (w : World) : World :=
  setRepo
    (map_imap (λ id n,
       Some (if decide (id ∈ notificationIds ∧ userId n = user)
             then setReadAt (Some now) (setStatus READ n) else n))
       (notificationRepo w))
    w.

Definition markAllAsRead (now : Z) (user : string) (ws : option string)
    (w : World) : World :=
  setRepo
    (map_imap (λ _ n,
       Some (if decide (userId n = user ∧ status n ≠ READ ∧ inWorkspace ws n)
             then setReadAt (Some now) (setStatus READ n) else n))
       (notificationRepo w))
    w.

(** [notification.expiresAt && notification.expiresAt < now] *)
Definition isExpired (n : Notification) (now : Z) : bool :=
  match expiresAt n with
  | Some e => e <? now
  | None => false
  end.

(** [find({ where: { status: PENDING, scheduledAt: LessThanOrEqual(now) },
    take: 100 })] *)
Definition isDue (now : Z) (n : Notification) : Prop :=
  status n = PENDING ∧
  match scheduledAt n with
  | Some at_ => at_ ≤ now
  | None => False
  end.

Global Instance isDue_dec now n : Decision (isDue now n).
Proof. unfold isDue. destruct (scheduledAt n); apply _. Defined.

Definition pendingNotifications (now : Z) (w : World) : list Entity :=
  take 100 (filter (λ e : Entity, isDue now e.2) (rows w)).

(** The body of the [for] loop of the sweep. *)
Definition sweepOne (now : Z) (w : World) (notification : Entity) : World :=
  let '(id, n) := notification in
  if isExpired n now then
    save (id, setErrorMessage (Some "Notification expired before delivery")
                (setStatus FAILED n)) w
  else
    let n := setStatus QUEUED n in
    queueAdd (sendJob id (priority n)) (save (id, n) w).

Definition processScheduledNotifications (now : Z) (w : World) : World :=
  let pending := pendingNotifications now w in
  if bool_decide (length pending = 0%nat) then w
  else foldl (sweepOne now) w pending.

(** [getFailedNotifications(limit = 50)] *)
Definition getFailedNotifications (limit : option nat) (w : World) : list Entity :=
  take (default 50%nat limit)
       (merge_sort newerFirst (filter (λ e : Entity, status e.2 = FAILED) (rows w))).

Definition retryNotification (notificationId : string) (w : World) : bool * World :=
  match notificationRepo w !! notificationId with
  | None => (false, w)
  | Some n =>
      if negb (bool_decide (status n = FAILED)) then (false, w)
      else
        let n := setErrorMessage None (setStatus QUEUED n) in
        let w := save (notificationId, n) w in
        (true, queueAdd (sendJob notificationId (priority n)) w)
  end.

(** ** Processing a dispatch job *)

(** The line feed of a template literal (character code 10). *)
Definition newline : string :=
  String (Ascii.Ascii false true false true false false false false) "".

(** [result.errors[0]?.error || 'All devices failed'] *)
Definition firstErrorOr (errors : list Firebase.TokenError) (fallback : string) : string :=
  match errors with
  | e :: _ => if truthy (Some (Firebase.error e)) then Firebase.error e else fallback
  | [] => fallback
  end.

(** The payload [sendPushNotification] hands to the push provider:
    [data] with every value as a string, then [notificationId], then
    [actionUrl] when there is one; priority high for urgent and high. *)
Definition pushPayload (notification : Entity) : Firebase.PushPayload :=
  let '(id, n) := notification in
  let stringData : gmap string string :=
    match data n with
    | Some d => stringifyValue <$> d
    | None => ∅
    end in
  let stringData := <["notificationId" := id]> stringData in
  let stringData :=
    if truthy (actionUrl n)
    then <["actionUrl" := default "" (actionUrl n)]> stringData
    else stringData in
  {| Firebase.title := title n;
     Firebase.body := body n;
     Firebase.data := stringData;
     Firebase.imageUrl := imageUrl n;
     Firebase.priority :=
       if bool_decide (priority n = Some "urgent") || bool_decide (priority n = Some "high")
       then "high" else "normal" |}.

(** [sendPushNotification].  The notification object is mutated in
    place by the source; here the mutated row is returned.  The only
    statement that can throw is the call of the device directory, before
    any mutation.  The final block of the source only logs. *)
Definition sendPushNotification (env : Collaborators) (notification : Entity)
    (w : World) : Outcome Notification * World :=
  let '(id, n) := notification in
  match getUserDevices env (userId n) with
  | inl message => (Thrown message, w)
  | inr devices =>
      if bool_decide (length devices = 0%nat) then
        (Returned (setErrorMessage (Some "No registered devices") (setStatus FAILED n)), w)
      else
        let tokens := token <$> devices in
        let payload := pushPayload notification in
        let result :=
          Firebase.sendToDevices (firebaseInitialized env) (sendEachForMulticast env)
                                 tokens payload in
        let w := recordCall (PushSend tokens payload) w in
        if Firebase.success result then
          (Returned (setStatus SENT n), w)
        else if 0 <? Firebase.successCount result then
          (Returned (setErrorMessage
                       (Some ("Partial delivery: " +:+ pretty (Firebase.failureCount result)
                              +:+ " failed"))
                       (setStatus SENT n)), w)
        else
          (Returned (setErrorMessage
                       (Some (firstErrorOr (Firebase.errors result) "All devices failed"))
                       (setStatus FAILED n)), w)
  end.

(** [result.error || fallback] *)
Definition errorOr (error : option string) (fallback : string) : string :=
  if truthy error then default "" error else fallback.

Definition sendEmailNotification (env : Collaborators) (notification : Entity)
    (w : World) : Outcome Notification * World :=
  let '(id, n) := notification in
  let email := data n ≫= (.!! "email") in
  match email with
  | Some to =>
      if negb (jsTruthy email) then
        (Returned (setErrorMessage (Some "No email address provided") (setStatus FAILED n)), w)
      else
        let htmlBody := data n ≫= (.!! "htmlBody") in
        let payload :=
          {| Email.to := to;
             Email.subject := title n;
             Email.text := body n;
             Email.html :=
               match htmlBody with
               | Some h => if jsTruthy htmlBody then h
                           else JString ("<p>" +:+ body n +:+ "</p>")
               | None => JString ("<p>" +:+ body n +:+ "</p>")
               end |} in
        let result := sendEmail env payload in
        let w := recordCall (EmailSend payload) w in
        if Email.success result then (Returned (setStatus SENT n), w)
        else
          (Returned (setErrorMessage
                       (Some (errorOr (Email.error result) "Email sending failed"))
                       (setStatus FAILED n)), w)
  | None =>
      (Returned (setErrorMessage (Some "No email address provided") (setStatus FAILED n)), w)
  end.

Definition sendSmsNotification (env : Collaborators) (notification : Entity)
    (w : World) : Outcome Notification * World :=
  let '(id, n) := notification in
  let phone := data n ≫= (.!! "phone") in
  match phone with
  | Some to =>
      if negb (jsTruthy phone) then
        (Returned (setErrorMessage (Some "No phone number provided") (setStatus FAILED n)), w)
      else
        let payload :=
          {| Sms.to := to;
             Sms.body := title n +:+ newline +:+ newline +:+ body n |} in
        let result := sendSms env payload in
        let w := recordCall (SmsSend payload) w in
        if Sms.success result then (Returned (setStatus SENT n), w)
        else
          (Returned (setErrorMessage
                       (Some (errorOr (Sms.error result) "SMS sending failed"))
                       (setStatus FAILED n)), w)
  | None =>
      (Returned (setErrorMessage (Some "No phone number provided") (setStatus FAILED n)), w)
  end.

(** [processNotification].  [tExpiry], [tDelivered] and [tSent] are the
    three readings of the clock, in program order: the expiry check,
    [deliveredAt] of an in-app notification, and [sentAt].  A thrown
    error leaves the notification object as it was loaded, so the
    [catch] block updates the loaded row. *)
Definition processNotification (env : Collaborators) (tExpiry tDelivered tSent : Z)
    (notificationId : string) (w : World) : Outcome unit * World :=
  match notificationRepo w !! notificationId with
  | None => (Returned (), w)
  | Some n =>
      if isExpired n tExpiry then
        (Returned (),
         save (notificationId,
               setErrorMessage (Some "Notification expired") (setStatus FAILED n)) w)
      else
        let '(sent, w) :=
          match type n with
          | PUSH => sendPushNotification env (notificationId, n) w
          | EMAIL => sendEmailNotification env (notificationId, n) w
          | SMS => sendSmsNotification env (notificationId, n) w
          | IN_APP =>
              (Returned (setDeliveredAt (Some tDelivered) (setStatus DELIVERED n)), w)
          end in
        match sent with
        | Returned n => (Returned (), save (notificationId, setSentAt (Some tSent) n) w)
        | Thrown message =>
            let n := setRetryCount (retryCount n + 1)
                       (setErrorMessage (Some message) (setStatus FAILED n)) in
            (Thrown message, save (notificationId, n) w)
        end
  end.
(** The jobs the loop of the sweep submits for [pending], in order. *)
Definition sweepJobs (now : Z) (pending : list Entity) : list Queue.Job :=
  pending ≫= λ e, if isExpired e.2 now then [] else [sendJob e.1 (priority e.2)].

(** ** Sample data

    A small deployment used to run the operations on concrete inputs. *)

Definition sampleTokens : list Device :=
  [ {| token := "tok-a" |}; {| token := "tok-b" |}; {| token := "tok-c" |} ].

(** Two of three destinations accept the message. *)
Definition twoOfThree : Firebase.BatchResponse :=
  {| Firebase.responses :=
       [ {| Firebase.respSuccess := true; Firebase.respErrorMessage := None |};
         {| Firebase.respSuccess := false;
            Firebase.respErrorMessage := Some "Requested entity was not found." |};
         {| Firebase.respSuccess := true; Firebase.respErrorMessage := None |} ];
     Firebase.batchSuccessCount := 2;
     Firebase.batchFailureCount := 1 |}.

Definition noneOfThree : Firebase.BatchResponse :=
  {| Firebase.responses :=
       [ {| Firebase.respSuccess := false;
            Firebase.respErrorMessage := Some "Requested entity was not found." |};
         {| Firebase.respSuccess := false; Firebase.respErrorMessage := None |};
         {| Firebase.respSuccess := false;
            Firebase.respErrorMessage := Some "The registration token is not valid." |} ];
     Firebase.batchSuccessCount := 0;
     Firebase.batchFailureCount := 3 |}.

(** User "muted" has switched notifications off, user "nodevice" has no
    registered device, every message titled "doomed" fails at all
    destinations. *)
Definition sampleEnv : Collaborators :=
  {| canSendNotification := λ user _ _, negb (String.eqb user "muted");
     getUserDevices := λ user, if String.eqb user "nodevice" then inr [] else inr sampleTokens;
     firebaseInitialized := true;
     sendEachForMulticast := λ _ payload,
       if String.eqb (Firebase.title payload) "doomed" then inr noneOfThree else inr twoOfThree;
     sendEmail := λ _, {| Email.success := true; Email.messageId := Some "<1@smtp>";
                          Email.error := None |};
     sendSms := λ _, {| Sms.success := true; Sms.messageId := Some "SM1";
                        Sms.error := None |} |}.

Definition sampleDto (user : string) (scheduledAt : option Z) : Dto.SendNotificationDto :=
  {| Dto.userId := user; Dto.workspaceId := Some "ws-1"; Dto.type := PUSH;
     Dto.title := "Build finished"; Dto.body := "All checks passed";
     Dto.data := None; Dto.priority := Some "high"; Dto.category := None;
     Dto.actionUrl := None; Dto.imageUrl := None;
     Dto.scheduledAt := scheduledAt; Dto.expiresAt := None |}.

Definition sampleRow (user : string) (ws : option string) (type : NotificationType)
    (title : string) (status : NotificationStatus) (scheduledAt expiresAt readAt : option Z)
    (createdAt : Z) : Notification :=
  {| userId := user; workspaceId := ws; type := type; title := title;
     body := "body"; data := None; priority := Some "urgent"; category := None;
     actionUrl := None; imageUrl := None; status := status;
     scheduledAt := scheduledAt; expiresAt := expiresAt; sentAt := None;
     readAt := readAt; deliveredAt := None; createdAt := createdAt;
     errorMessage := if bool_decide (status = FAILED) then Some "boom" else None;
     retryCount := 0 |}.

Definition sampleWorld : World :=
  {| userRateLimits := {[ "flooder" := {| count := 100; resetAt := 50000 |} ]};
     notificationRepo :=
       list_to_map
         [ ("n1", sampleRow "alice" (Some "ws-1") PUSH "hello" QUEUED None None None 10);
           ("n2", sampleRow "alice" (Some "ws-2") IN_APP "hello" SENT None None None 20);
           ("n3", sampleRow "alice" (Some "ws-1") IN_APP "hello" READ None None (Some 25) 30);
           ("n4", sampleRow "bob" (Some "ws-1") IN_APP "hello" SENT None None None 40);
           ("n5", sampleRow "alice" (Some "ws-1") PUSH "doomed" QUEUED None None None 50);
           ("n6", sampleRow "nodevice" None PUSH "hello" QUEUED None None None 60);
           ("n7", sampleRow "alice" (Some "ws-1") EMAIL "hello" FAILED None None None 70);
           ("n8", sampleRow "alice" None SMS "hello" PENDING (Some 900) (Some 950) None 80);
           ("n9", sampleRow "bob" None IN_APP "hello" PENDING (Some 800) None None 90) ];
     notificationQueue := [];
     providerCalls := [] |}.

(** ** Further operations of [NotificationService] *)

(** Modelled from the spec: [SendBulkNotificationDto] is declared in
    the missing DTO file; these are the fields [sendBulk] reads. *)
Module BulkDto.
Record SendBulkNotificationDto : Type := {
  userIds : list string;
  workspaceId : option string;
  type : NotificationType;
  title : string;
  body : string;
  data : option (gmap string JsonValue);
  priority : option string;
}.
End BulkDto.

(** The callbacks of [dto.userIds.map(async (userId) => ...)] run in list
    order up to their first [await], so the calls of [checkRateLimit]
    happen in list order, the one at position [i] at the clock reading
    [clock i].  The user ids that pass both checks, in list order, and
    the rate-limit map after the last check. *)
Fixpoint bulkAdmit (env : Collaborators) (clock : nat → Z) (i : nat)
    (dto : BulkDto.SendBulkNotificationDto) (userIds : list string)
    (userRateLimits : gmap string RateEntry) : list string * gmap string RateEntry :=
  match userIds with
  | [] => ([], userRateLimits)
  | userId :: rest =>
      let '(admitted, limits) := checkRateLimit (clock i) userId userRateLimits in
      let '(valid, limits') := bulkAdmit env clock (S i) dto rest limits in
      if negb admitted then (valid, limits')
      else if negb (canSendNotification env userId (BulkDto.workspaceId dto)
                                        (BulkDto.type dto))
      then (valid, limits')
      else (userId :: valid, limits')
  end.

(** The object [notificationRepo.create] builds for one user of a bulk
    request. *)
Definition bulkRow (dto : BulkDto.SendBulkNotificationDto) (user : string)
    (created : Z) : Notification :=
  {| userId := user;
     workspaceId := BulkDto.workspaceId dto;
     type := BulkDto.type dto;
     title := BulkDto.title dto;
     body := BulkDto.body dto;
     data := BulkDto.data dto;
     priority := BulkDto.priority dto;
     category := None; actionUrl := None; imageUrl := None;
     status := QUEUED;
     scheduledAt := None; expiresAt := None;
     sentAt := None; readAt := None; deliveredAt := None;
     createdAt := created;
     errorMessage := None;
     retryCount := 0 |}.

(** [notificationQueue.add('send', { notificationId: n.id })]: no
    options. *)
Definition bulkJob (notificationId : string) : Queue.Job :=
  {| Queue.name := "send"; Queue.notificationId := notificationId; Queue.opts := None |}.

(** [sendBulk].  [gen j] gives the columns the store generates for the
    row at position [j] of the saved array.  The result is [queued]. *)
Definition sendBulk (env : Collaborators) (clock : nat → Z) (gen : nat → Generated)
    (dto : BulkDto.SendBulkNotificationDto) (w : World) : nat * World :=
  let '(valid, limits) := bulkAdmit env clock 0 dto (BulkDto.userIds dto) (userRateLimits w) in
  let w := setRateLimits limits w in
  let validNotifications : list Entity :=
    imap (λ j user, (newId (gen j), bulkRow dto user (newCreatedAt (gen j)))) valid in
  let w := foldl (λ w notification, save notification w) w validNotifications in
  let w := foldl (λ w (n : Entity), queueAdd (bulkJob n.1) w) w validNotifications in
  (length validNotifications, w).

(** The object [getStats] returns. *)
Module Stats.
Record Stats : Type := {
  total : nat;
  sent : nat;
  delivered : nat;
  failed : nat;
  read : nat;
  pending : nat;
}.
End Stats.

(** [baseQuery.clone().andWhere('n.status = :status', ...).getCount()];
    the base query filters on the workspace under [if (workspaceId)]. *)
Definition countStatus (ws : option string) (st : NotificationStatus) (w : World) : nat :=
  length (filter (λ e : Entity, inWorkspace ws e.2 ∧ status e.2 = st) (rows w)).

Definition getStats (ws : option string) (w : World) : Stats.Stats :=
  {| Stats.total := length (filter (λ e : Entity, inWorkspace ws e.2) (rows w));
     Stats.sent := countStatus ws SENT w;
     Stats.delivered := countStatus ws DELIVERED w;
     Stats.failed := countStatus ws FAILED w;
     Stats.read := countStatus ws READ w;
     Stats.pending := countStatus ws PENDING w |}.

(** The columns [processNotification] never assigns. *)
Definition sameContent (a b : Notification) : Prop :=
  userId a = userId b ∧ workspaceId a = workspaceId b ∧ type a = type b
  ∧ title a = title b ∧ body a = body b ∧ data a = data b
  ∧ priority a = priority b ∧ category a = category b
  ∧ actionUrl a = actionUrl b ∧ imageUrl a = imageUrl b
  ∧ scheduledAt a = scheduledAt b ∧ expiresAt a = expiresAt b
  ∧ readAt a = readAt b ∧ createdAt a = createdAt b.

(** ** [FirebaseProvider.sendToDevice]

    [send] is [admin.messaging().send], which throws (left: the message
    of the error) or returns the message id. *)
Definition sendToDevice (initialized : bool)
    (send : string → Firebase.PushPayload → string + string)
    (token : string) (payload : Firebase.PushPayload) : Firebase.PushResult :=
  if negb initialized then
    {| Firebase.success := false;
       Firebase.successCount := 0;
       Firebase.failureCount := 1;
       Firebase.failedTokens := [Some token];
       Firebase.errors := [ {| Firebase.token := Some token;
                               Firebase.error := "Firebase not initialized" |} ] |}
  else
    match send token payload with
    | inr _ =>
        {| Firebase.success := true;
           Firebase.successCount := 1;
           Firebase.failureCount := 0;
           Firebase.failedTokens := [];
           Firebase.errors := [] |}
    | inl message =>
        {| Firebase.success := false;
           Firebase.successCount := 0;
           Firebase.failureCount := 1;
           Firebase.failedTokens := [Some token];
           Firebase.errors := [ {| Firebase.token := Some token;
                                   Firebase.error := message |} ] |}
    end.

(** ** [SmsProvider] ([sms.provider.ts])

    The provider inspects the characters of a phone number and of a
    message body, so these two are JavaScript strings as they are: lists
    of UTF-16 code units.  Other texts stay opaque. *)
Module SmsProvider.

Definition isDigit (c : N) : bool := ((48 <=? c) && (c <=? 57))%N.
Definition plus : N := 43%N.

(** [phone.replace(/[^\d+]/g, '')], then a leading [+] unless there is
    one. *)
Definition keepDigitsAndPlus (phone : list N) : list N :=
  List.filter (λ c, isDigit c || (c =? plus)%N) phone.

Definition startsWithPlus (s : list N) : bool :=
  match s with
  | c :: _ => (c =? plus)%N
  | [] => false
  end.

Definition formatPhoneNumber (phone : list N) : list N :=
  let formatted := keepDigitsAndPlus phone in
  if negb (startsWithPlus formatted) then plus :: formatted else formatted.

(** [Math.ceil(length / per)] for a length and a positive divisor; the
    floating-point quotient of two such integers rounds up to the same
    integer as the exact one. *)
Definition ceilDiv (length per : nat) : nat := (length + per - 1) `div` per.

Definition getSegmentCount (body : list N) : nat :=
  let length := length body in
  let hasUnicode := existsb (λ c, (127 <? c)%N) body in
  if hasUnicode then
    (if bool_decide (length ≤ 70)%nat then 1 else ceilDiv length 67)%nat
  else
    (if bool_decide (length ≤ 160)%nat then 1 else ceilDiv length 153)%nat.

Record SmsPayload : Type := {
  to : list N;
  body : string;
  from : option string;
  mediaUrl : option (list string);
}.

Record SmsResult : Type := {
  success : bool;
  messageId : option string;
  status : option string;
  error : option string;
}.

Record MessageOptions : Type := {
  optTo : list N;
  optFrom : string;
  optBody : string;
  optMediaUrl : option (list string);
}.

(** What [sendSms] hands to [client.messages.create]. *)
Definition messageOptions (defaultFrom : string) (payload : SmsPayload) : MessageOptions :=
  {| optTo := formatPhoneNumber (to payload);
     optFrom := if truthy (from payload) then default "" (from payload) else defaultFrom;
     optBody := body payload;
     optMediaUrl :=
       match mediaUrl payload with
       | Some urls => if bool_decide (0 < length urls)%nat then Some urls else None
       | None => None
       end |}.

(** [sendSms].  [client] is the Twilio client, absent without
    credentials; its [messages.create] throws (left: the message of the
    error) or returns the message's [sid] and [status]. *)
Definition sendSms (client : option (MessageOptions → string + (string * string)))
    (defaultFrom : string) (payload : SmsPayload) : SmsResult :=
  match client with
  | None =>
      {| success := false; messageId := None; status := None;
         error := Some "Twilio client not initialized" |}
  | Some create =>
      if negb (truthy (Some defaultFrom)) && negb (truthy (from payload)) then
        {| success := false; messageId := None; status := None;
           error := Some "No sender phone number configured" |}
      else
        match create (messageOptions defaultFrom payload) with
        | inr (sid, st) =>
            {| success := true; messageId := Some sid; status := Some st; error := None |}
        | inl message =>
            {| success := false; messageId := None; status := None;
               error := Some message |}
        end
  end.

End SmsProvider.

(** What a channel method may do to the notification object and to the
    state: it sets [status] and [errorMessage] only, leaves table, queue
    and rate limits alone, and makes at most one provider call; when it
    throws, nothing has happened. *)
Definition channelEffect (n : Notification) (w : World)
    (r : Outcome Notification * World) : Prop :=
  match r.1 with
  | Returned n' =>
      sameContent n n' ∧ (status n' = SENT ∨ status n' = FAILED)
      ∧ sentAt n' = sentAt n ∧ deliveredAt n' = deliveredAt n
      ∧ retryCount n' = retryCount n
      ∧ notificationRepo r.2 = notificationRepo w
      ∧ notificationQueue r.2 = notificationQueue w
      ∧ userRateLimits r.2 = userRateLimits w
      ∧ (providerCalls r.2 = providerCalls w
         ∨ ∃ c, providerCalls r.2 = providerCalls w ++ [c])
  | Thrown _ => r.2 = w
  end.

(** A deployment whose device directory is down. *)
Definition directoryDownEnv : Collaborators :=
  {| canSendNotification := λ _ _ _, true;
     getUserDevices := λ _, inl "connection refused";
     firebaseInitialized := true;
     sendEachForMulticast := λ _ _, inr twoOfThree;
     sendEmail := λ _, {| Email.success := false; Email.messageId := None;
                          Email.error := Some "Mailbox unavailable" |};
     sendSms := λ _, {| Sms.success := true; Sms.messageId := Some "SM1";
                        Sms.error := None |} |}.

(** ** [FirebaseProvider.initialize]

    [privateKey.replace(/\\n/g, '\n')]: every backslash followed by [n]
    becomes a line feed, left to right. *)
Fixpoint unescapeNewlines (s : string) : string :=
  match s with
  | String c rest =>
      match rest with
      | String c' rest' =>
          if Ascii.eqb c (Ascii.Ascii false false true true true false true false)
             && Ascii.eqb c' (Ascii.Ascii false true true true false true true false)
          then newline +:+ unescapeNewlines rest'
          else String c (unescapeNewlines rest)
      | EmptyString => String c EmptyString
      end
  | EmptyString => EmptyString
  end.

Record ServiceAccount : Type := {
  projectId : string;
  privateKey : string;
  clientEmail : string;
}.

(** The value of [initialized] after [initialize].  The three
    credentials are what [configService.get] returns; [appsLength] is
    [admin.apps.length]; [initializeApp] is [admin.credential.cert]
    followed by [admin.initializeApp], which throws (the message of the
    error) or not. *)
Definition initializeFirebase (projectId privateKey clientEmail : option string)
    (appsLength : nat) (initializeApp : ServiceAccount → option string) : bool :=
  if negb (truthy projectId) || negb (truthy privateKey) || negb (truthy clientEmail) then
    false
  else if bool_decide (appsLength = 0%nat) then
    match initializeApp {| projectId := default "" projectId;
                           privateKey := unescapeNewlines (default "" privateKey);
                           clientEmail := default "" clientEmail |} with
    | None => true
    | Some _ => false
    end
  else true.

(** A deployment started without [FIREBASE_PRIVATE_KEY]; every user has
    the three sample devices. *)
Definition unconfiguredEnv : Collaborators :=
  {| canSendNotification := λ _ _ _, true;
     getUserDevices := λ _, inr sampleTokens;
     firebaseInitialized :=
       initializeFirebase (Some "quckapp") None (Some "push@quckapp.example") 0 (λ _, None);
     sendEachForMulticast := λ _ _, inr twoOfThree;
     sendEmail := λ _, {| Email.success := true; Email.messageId := Some "<1@smtp>";
                          Email.error := None |};
     sendSms := λ _, {| Sms.success := true; Sms.messageId := Some "SM1";
                        Sms.error := None |} |}.

(** ** Runs of [send] *)

(** Successive calls of [send], each with its clock reading and the
    columns the store generates; the results in call order. *)
Fixpoint sendAll (env : Collaborators)
    (requests : list (Z * Generated * Dto.SendNotificationDto)) (w : World)
    : list (option Response.NotificationResponseDto) * World :=
  match requests with
  | [] => ([], w)
  | (now, gen, dto) :: rest =>
      let '(response, w) := send env now gen dto w in
      let '(responses, w') := sendAll env rest w in
      (response :: responses, w')
  end.



(** * Properties *)

(** ** Properties of the rate limiter *)

Section RateLimiter.
Implicit Types (m : gmap string RateEntry) (u : string) (now : Z).

Lemma checkRateLimit_reset now u m :
  windowOver now (m !! u) →
  checkRateLimit now u m =
    (true, <[u := {| count := 1; resetAt := now + RATE_LIMIT_WINDOW |}]> m).
Proof.
  unfold checkRateLimit, windowOver. destruct (m !! u) as [e|]; [|done].
  intros H. by rewrite (proj2 (Z.ltb_lt _ _) H).
Qed.

Lemma checkRateLimit_reject now u m e :
  m !! u = Some e → now ≤ resetAt e → RATE_LIMIT_MAX ≤ count e →
  checkRateLimit now u m = (false, m).
Proof.
  intros Hm Hw Hc. unfold checkRateLimit. rewrite Hm.
  rewrite (proj2 (Z.ltb_ge _ _) Hw). by rewrite (proj2 (Z.leb_le _ _) Hc).
Qed.

Lemma checkRateLimit_increment now u m e :
  m !! u = Some e → now ≤ resetAt e → count e < RATE_LIMIT_MAX →
  checkRateLimit now u m =
    (true, <[u := {| count := count e + 1; resetAt := resetAt e |}]> m).
Proof.
  intros Hm Hw Hc. unfold checkRateLimit. rewrite Hm.
  rewrite (proj2 (Z.ltb_ge _ _) Hw). by rewrite (proj2 (Z.leb_gt _ _) Hc).
Qed.

Lemma checkRateLimit_other now u u' m :
  u ≠ u' → (checkRateLimit now u m).2 !! u' = m !! u'.
Proof.
  intros Hne. unfold checkRateLimit.
  destruct (m !! u) as [e|]; simpl; [|by rewrite lookup_insert_ne].
  repeat case_match; simpl; by rewrite ?lookup_insert_ne.
Qed.

(** Inside a window that has admitted [k] calls (1 ≤ k ≤ 100), the next
    [length times] calls are admitted while the count stays below 100 and
    rejected from then on. *)
Lemma checkRateLimitSeq_in_window times : ∀ u m k r,
  m !! u = Some {| count := k; resetAt := r |} →
  1 ≤ k ≤ RATE_LIMIT_MAX →
  Forall (λ now, now ≤ r) times →
  (checkRateLimitSeq times u m).1 =
    replicate (Nat.min (length times) (Z.to_nat (RATE_LIMIT_MAX - k))) true ++
    replicate (length times - Z.to_nat (RATE_LIMIT_MAX - k)) false
  ∧ (checkRateLimitSeq times u m).2 !! u =
      Some {| count := Z.min RATE_LIMIT_MAX (k + Z.of_nat (length times)); resetAt := r |}.
Proof.
  induction times as [|now rest IH]; intros u m k r Hm Hk Hall.
  - simpl. split; [done|]. rewrite Hm. do 2 f_equal. lia.
  - apply Forall_cons in Hall as [Hnow Hrest]. cbn [checkRateLimitSeq].
    destruct (decide (k < RATE_LIMIT_MAX)) as [Hlt|Hge].
    + rewrite (checkRateLimit_increment now u m _ Hm); [|done..]. simpl count. simpl resetAt.
      destruct (IH u (<[u:={| count := k + 1; resetAt := r |}]> m) (k + 1) r) as [IH1 IH2];
        [by rewrite lookup_insert_eq | lia | done |].
      destruct (checkRateLimitSeq rest u _) as [oks m']. simpl in *.
      rewrite IH1, IH2. split.
      * replace (Z.to_nat (RATE_LIMIT_MAX - k)) with (S (Z.to_nat (RATE_LIMIT_MAX - (k + 1)))) by lia.
        done.
      * do 2 f_equal. lia.
    + rewrite (checkRateLimit_reject now u m _ Hm); [|simpl; lia..].
      destruct (IH u m k r) as [IH1 IH2]; [done..|].
      destruct (checkRateLimitSeq rest u m) as [oks m']. simpl in *.
      rewrite IH1, IH2.
      replace (Z.to_nat (RATE_LIMIT_MAX - k)) with 0%nat by lia.
      rewrite !Nat.min_0_r, !Nat.sub_0_r. simpl. split; [done|].
      do 2 f_equal. unfold RATE_LIMIT_MAX in *. lia.
Qed.

(** The verdict for a user and the user's new entry depend on the
    user's entry only. *)
Lemma checkRateLimit_local now u m m' :
  m !! u = m' !! u →
  (checkRateLimit now u m).1 = (checkRateLimit now u m').1
  ∧ (checkRateLimit now u m).2 !! u = (checkRateLimit now u m').2 !! u.
Proof.
  intros Heq. unfold checkRateLimit. rewrite Heq.
  destruct (m' !! u) as [e|] eqn:He; simpl; [|by rewrite !lookup_insert_eq].
  destruct (resetAt e <? now); simpl; [by rewrite !lookup_insert_eq|].
  destruct (RATE_LIMIT_MAX <=? count e); simpl; [by rewrite Heq|].
  by rewrite !lookup_insert_eq.
Qed.

(** In a run of calls of several users, a user gets the verdicts that
    the user's own calls get when they run alone. *)
Lemma checkRateLimitCalls_per_user u calls : ∀ m m',
  m !! u = m' !! u →
  verdictsOf u calls (checkRateLimitCalls calls m).1 =
    (checkRateLimitSeq (callTimesOf u calls) u m').1
  ∧ (checkRateLimitCalls calls m).2 !! u =
      (checkRateLimitSeq (callTimesOf u calls) u m').2 !! u.
Proof.
  induction calls as [|[user now] rest IH]; intros m m' Heq; [done|].
  cbn [checkRateLimitCalls]. unfold callTimesOf, verdictsOf in *.
  destruct (decide (user = u)) as [->|Hne].
  - rewrite filter_cons_True by done. cbn [fmap list_fmap snd checkRateLimitSeq].
    destruct (checkRateLimit_local now u m m' Heq) as [Hok Hnext].
    destruct (checkRateLimit now u m) as [ok m1], (checkRateLimit now u m') as [ok' m1'].
    simpl in Hok, Hnext. subst ok'.
    destruct (IH m1 m1' Hnext) as [IH1 IH2].
    destruct (checkRateLimitCalls rest m1) as [oks m2].
    destruct (checkRateLimitSeq _ u m1') as [oks' m2']. simpl in *.
    rewrite filter_cons_True by done. simpl. split; [|done]. f_equal. exact IH1.
  - rewrite filter_cons_False by done.
    pose proof (checkRateLimit_other now user u m Hne) as Hkeep.
    destruct (checkRateLimit now user m) as [ok m1]. simpl in Hkeep.
    destruct (IH m1 m') as [IH1 IH2]; [congruence|].
    destruct (checkRateLimitCalls rest m1) as [oks m2]. simpl in *.
    by rewrite filter_cons_False by done.
Qed.

End RateLimiter.

(** C2.  One call of the rate limiter: with no entry for the user, or
    with an entry whose [resetAt] has passed, the call is admitted and
    the entry becomes [count = 1], [resetAt = now + 60 s]; inside the
    window it is rejected, with the map unchanged, once [count >= 100],
    and admitted with [count] incremented otherwise.  Hence, when a
    user's calls start a window at [now] and all fall inside it (no later
    than [now + 60 s]), calls 1 to 100 are admitted and all later ones are
    rejected, also when calls of other users come in between, and the
    first call after the window is admitted again. *)
Theorem rate_limiter_window (u : string) (m : gmap string RateEntry) (now : Z) :
  (windowOver now (m !! u) →
     checkRateLimit now u m = (true, <[u := {| count := 1; resetAt := now + 60000 |}]> m))
  ∧ (∀ e, m !! u = Some e → now ≤ resetAt e → 100 ≤ count e →
       checkRateLimit now u m = (false, m))
  ∧ (∀ e, m !! u = Some e → now ≤ resetAt e → count e < 100 →
       checkRateLimit now u m =
         (true, <[u := {| count := count e + 1; resetAt := resetAt e |}]> m))
  ∧ (∀ rest, windowOver now (m !! u) → Forall (λ t, t ≤ now + 60000) rest →
       let verdicts :=
         replicate (Nat.min (S (length rest)) 100) true ++
         replicate (S (length rest) - 100) false in
       (checkRateLimitSeq (now :: rest) u m).1 = verdicts
       ∧ (∀ calls, callTimesOf u calls = now :: rest →
            verdictsOf u calls (checkRateLimitCalls calls m).1 = verdicts)
       ∧ (∀ later, now + 60000 < later →
            (checkRateLimit later u (checkRateLimitSeq (now :: rest) u m).2).1 = true)).
Proof.
  split; [apply checkRateLimit_reset|].
  split; [intros e; apply checkRateLimit_reject|].
  split; [intros e; apply checkRateLimit_increment|].
  intros rest Hover Hall verdicts.
  assert ((checkRateLimitSeq (now :: rest) u m).1 = verdicts
          ∧ (checkRateLimitSeq (now :: rest) u m).2 !! u =
              Some {| count := Z.min RATE_LIMIT_MAX (1 + Z.of_nat (length rest));
                      resetAt := now + RATE_LIMIT_WINDOW |}) as [Hverdicts Hentry].
  { cbn [checkRateLimitSeq]. rewrite (checkRateLimit_reset _ _ _ Hover).
    destruct (checkRateLimitSeq_in_window rest u
                (<[u := {| count := 1; resetAt := now + RATE_LIMIT_WINDOW |}]> m)
                1 (now + RATE_LIMIT_WINDOW)) as [H1 H2];
      [by rewrite lookup_insert_eq | done | done |].
    destruct (checkRateLimitSeq rest u _) as [oks m']. simpl in H1, H2. simpl fst. simpl snd.
    split; [|done]. rewrite H1. subst verdicts.
    change (Z.to_nat (RATE_LIMIT_MAX - 1)) with 99%nat.
    destruct (decide (length rest ≤ 99)%nat).
    - rewrite !Nat.min_l by lia. replace (S (length rest) - 100)%nat with 0%nat by lia.
      replace (length rest - 99)%nat with 0%nat by lia. done.
    - rewrite !Nat.min_r by lia.
      replace (S (length rest) - 100)%nat with (length rest - 99)%nat by lia. done. }
  split; [done|]. split.
  - intros calls Htimes.
    destruct (checkRateLimitCalls_per_user u calls m m eq_refl) as [-> _].
    by rewrite Htimes.
  - intros later Hlater. rewrite checkRateLimit_reset; [done|].
    rewrite Hentry. simpl. unfold RATE_LIMIT_WINDOW. lia.
Qed.

Lemma rate_limiter_window_witness :
  (checkRateLimitSeq (0 :: replicate 104 30000) "u1" ∅).1 =
    replicate 100 true ++ replicate 5 false
  ∧ (checkRateLimit 60001 "u1" (checkRateLimitSeq (0 :: replicate 104 30000) "u1" ∅).2).1 = true.
Proof.
  destruct (rate_limiter_window "u1" ∅ 0) as (_ & _ & _ & H).
  destruct (H (replicate 104 30000)) as (H1 & _ & H2).
  - exact I.
  - apply Forall_replicate. lia.
  - split; [exact H1 | apply H2; lia].
Defined.

(** ** Admission and creation ([send]) *)

Lemma getPriorityValue_default p :
  p ≠ Some "urgent" → p ≠ Some "high" → p ≠ Some "low" → getPriorityValue p = 3.
Proof.
  intros Hu Hh Hl. destruct p as [p|]; [|done]. unfold getPriorityValue.
  destruct (String.eqb_spec p "urgent"); [congruence|].
  destruct (String.eqb_spec p "high"); [congruence|].
  destruct (String.eqb_spec p "normal"); [done|].
  destruct (String.eqb_spec p "low"); [congruence|done].
Qed.

(** C1.  A send request that passes admission creates a notification
    whose status is PENDING when [scheduledAt] is present and QUEUED
    otherwise; the notification is persisted and returned; the queue
    receives one job for it exactly when [scheduledAt] is absent, and
    that job carries priority urgent=1, high=2, normal=3, low=4
    (anything else 3), 3 attempts and exponential backoff from 1000 ms. *)
Theorem send_status_and_job (env : Collaborators) (now : Z) (gen : Generated)
    (dto : Dto.SendNotificationDto) (w : World) :
  (checkRateLimit now (Dto.userId dto) (userRateLimits w)).1 = true →
  canSendNotification env (Dto.userId dto) (Dto.workspaceId dto) (Dto.type dto) = true →
  let result := send env now gen dto w in
  let job :=
    {| Queue.name := "send";
       Queue.notificationId := newId gen;
       Queue.opts := Some {| Queue.priority := getPriorityValue (Dto.priority dto);
                             Queue.attempts := 3;
                             Queue.backoff := {| Queue.type := "exponential";
                                                 Queue.delay := 1000 |} |} |} in
  (∃ n, result.1 = Some (toResponse (newId gen, n))
        ∧ notificationRepo result.2 !! newId gen = Some n
        ∧ status n = match Dto.scheduledAt dto with Some _ => PENDING | None => QUEUED end
        ∧ scheduledAt n = Dto.scheduledAt dto)
  ∧ notificationQueue result.2 =
      notificationQueue w ++ match Dto.scheduledAt dto with Some _ => [] | None => [job] end
  ∧ getPriorityValue (Some "urgent") = 1
  ∧ getPriorityValue (Some "high") = 2
  ∧ getPriorityValue (Some "normal") = 3
  ∧ getPriorityValue (Some "low") = 4
  ∧ (∀ p, p ≠ Some "urgent" → p ≠ Some "high" → p ≠ Some "low" → getPriorityValue p = 3).
Proof.
  intros Hadmit Hcan result job. subst result job. unfold send.
  destruct (checkRateLimit now (Dto.userId dto) (userRateLimits w)) as [admitted limits].
  simpl in Hadmit. subst admitted. rewrite Hcan. cbn [negb].
  split; [|split].
  - eexists. split; [reflexivity|]. split; [|split].
    + destruct (Dto.scheduledAt dto); simpl; apply lookup_insert_eq.
    + by destruct (Dto.scheduledAt dto).
    + done.
  - destruct (Dto.scheduledAt dto); simpl; [by rewrite app_nil_r | done].
  - repeat split; auto using getPriorityValue_default.
Qed.

Lemma send_status_and_job_witness :
  (send sampleEnv 1000 {| newId := "n10"; newCreatedAt := 1000 |}
        (sampleDto "alice" None) sampleWorld).2.(notificationQueue) =
    [ {| Queue.name := "send"; Queue.notificationId := "n10";
         Queue.opts := Some {| Queue.priority := 2; Queue.attempts := 3;
                               Queue.backoff := {| Queue.type := "exponential";
                                                   Queue.delay := 1000 |} |} |} ]
  ∧ (send sampleEnv 1000 {| newId := "n10"; newCreatedAt := 1000 |}
          (sampleDto "alice" (Some 5000)) sampleWorld).2.(notificationQueue) = [].
Proof.
  split.
  - apply (send_status_and_job sampleEnv 1000 {| newId := "n10"; newCreatedAt := 1000 |}
             (sampleDto "alice" None) sampleWorld); reflexivity.
  - apply (send_status_and_job sampleEnv 1000 {| newId := "n10"; newCreatedAt := 1000 |}
             (sampleDto "alice" (Some 5000)) sampleWorld); reflexivity.
Defined.

(** C7.  A send request that the rate limiter rejects, or that the
    preference gate denies, returns [null]; the table and the queue are
    as before, and no provider is called. *)
Theorem send_silent_drop (env : Collaborators) (now : Z) (gen : Generated)
    (dto : Dto.SendNotificationDto) (w : World) :
  (checkRateLimit now (Dto.userId dto) (userRateLimits w)).1 = false
  ∨ canSendNotification env (Dto.userId dto) (Dto.workspaceId dto) (Dto.type dto) = false →
  let result := send env now gen dto w in
  result.1 = None
  ∧ notificationRepo result.2 = notificationRepo w
  ∧ notificationQueue result.2 = notificationQueue w
  ∧ providerCalls result.2 = providerCalls w.
Proof.
  intros Hdrop result. subst result. unfold send.
  destruct (checkRateLimit now (Dto.userId dto) (userRateLimits w)) as [admitted limits].
  simpl in Hdrop. destruct admitted; simpl; [|done].
  destruct Hdrop as [?|Hcan]; [done|]. by rewrite Hcan.
Qed.

Lemma send_silent_drop_witness :
  (send sampleEnv 1000 {| newId := "n10"; newCreatedAt := 1000 |}
        (sampleDto "flooder" None) sampleWorld).1 = None
  ∧ (send sampleEnv 1000 {| newId := "n10"; newCreatedAt := 1000 |}
          (sampleDto "muted" None) sampleWorld).1 = None.
Proof.
  split.
  - apply (send_silent_drop sampleEnv 1000 {| newId := "n10"; newCreatedAt := 1000 |}
             (sampleDto "flooder" None) sampleWorld). left. reflexivity.
  - apply (send_silent_drop sampleEnv 1000 {| newId := "n10"; newCreatedAt := 1000 |}
             (sampleDto "muted" None) sampleWorld). right. reflexivity.
Defined.

(** ** Manual retry *)

(** C5.  [retryNotification] returns [false] and leaves the table, the
    queue and everything else as they are when no record has the id or
    when the record is not FAILED; on a FAILED record it returns [true],
    the persisted record has status QUEUED and no [errorMessage] (its
    other columns as before) and the queue has exactly one more job, for
    that record. *)
Theorem retryNotification_spec (notificationId : string) (w : World) :
  (notificationRepo w !! notificationId = None →
     retryNotification notificationId w = (false, w))
  ∧ (∀ n, notificationRepo w !! notificationId = Some n → status n ≠ FAILED →
       retryNotification notificationId w = (false, w))
  ∧ (∀ n, notificationRepo w !! notificationId = Some n → status n = FAILED →
       let result := retryNotification notificationId w in
       let n' := setErrorMessage None (setStatus QUEUED n) in
       result.1 = true
       ∧ status n' = QUEUED ∧ errorMessage n' = None
       ∧ notificationRepo result.2 = <[notificationId := n']> (notificationRepo w)
       ∧ notificationQueue result.2 =
           notificationQueue w ++
           [ {| Queue.name := "send";
                Queue.notificationId := notificationId;
                Queue.opts := Some {| Queue.priority := getPriorityValue (priority n);
                                      Queue.attempts := 3;
                                      Queue.backoff := {| Queue.type := "exponential";
                                                          Queue.delay := 1000 |} |} |} ]
       ∧ userRateLimits result.2 = userRateLimits w
       ∧ providerCalls result.2 = providerCalls w).
Proof.
  unfold retryNotification. split; [|split].
  - by intros ->.
  - intros n -> Hst. by rewrite bool_decide_eq_false_2.
  - intros n -> Hst. by rewrite bool_decide_eq_true_2.
Qed.

Lemma retryNotification_spec_witness :
  retryNotification "n1" sampleWorld = (false, sampleWorld)
  ∧ (retryNotification "n7" sampleWorld).1 = true
  ∧ length (notificationQueue (retryNotification "n7" sampleWorld).2) = 1%nat.
Proof.
  destruct (retryNotification_spec "n1" sampleWorld) as (_ & Hkeep & _).
  destruct (retryNotification_spec "n7" sampleWorld) as (_ & _ & Hretry).
  split; [|split].
  - eapply Hkeep; [reflexivity | discriminate].
  - eapply Hretry; reflexivity.
  - destruct (Hretry _ eq_refl eq_refl) as (_ & _ & _ & _ & Hq & _).
    rewrite Hq. reflexivity.
Defined.

(** ** Marking as read *)

Lemma markAsRead_lookup now user ids w id :
  notificationRepo (markAsRead now user ids w) !! id =
    (λ n, if decide (id ∈ ids ∧ userId n = user)
          then setReadAt (Some now) (setStatus READ n) else n)
    <$> notificationRepo w !! id.
Proof.
  unfold markAsRead. simpl. rewrite map_lookup_imap.
  by destruct (notificationRepo w !! id).
Qed.

Lemma markAllAsRead_lookup now user ws w id :
  notificationRepo (markAllAsRead now user ws w) !! id =
    (λ n, if decide (userId n = user ∧ status n ≠ READ ∧ inWorkspace ws n)
          then setReadAt (Some now) (setStatus READ n) else n)
    <$> notificationRepo w !! id.
Proof.
  unfold markAllAsRead. simpl. rewrite map_lookup_imap.
  by destruct (notificationRepo w !! id).
Qed.

(** [markAsRead] updates every listed record of the user, whatever its
    status: after a second call the status is still READ and [readAt] is
    the instant of the second call. *)
Lemma markAsRead_twice_restamps (t1 t2 : Z) (user : string) (ids : list string)
    (w : World) (id : string) (n : Notification) :
  notificationRepo w !! id = Some n → id ∈ ids → userId n = user →
  let once := markAsRead t1 user ids w in
  let twice := markAsRead t2 user ids once in
  (∃ n1, notificationRepo once !! id = Some n1 ∧ status n1 = READ ∧ readAt n1 = Some t1)
  ∧ (∃ n2, notificationRepo twice !! id = Some n2 ∧ status n2 = READ ∧ readAt n2 = Some t2).
Proof.
  intros Hn Hid Hu once twice. subst once twice. split.
  - rewrite markAsRead_lookup, Hn. simpl. rewrite decide_True by done. eauto.
  - rewrite !markAsRead_lookup, Hn. simpl.
    rewrite (decide_True (P := id ∈ ids ∧ userId n = user)) by done.
    rewrite decide_True by done. eauto.
Qed.

Lemma markAsRead_twice_restamps_witness :
  (∃ n1, notificationRepo (markAsRead 100 "alice" ["n2"] sampleWorld) !! "n2" = Some n1
         ∧ status n1 = READ ∧ readAt n1 = Some 100)
  ∧ (∃ n2, notificationRepo
             (markAsRead 200 "alice" ["n2"] (markAsRead 100 "alice" ["n2"] sampleWorld))
             !! "n2" = Some n2
           ∧ status n2 = READ ∧ readAt n2 = Some 200).
Proof.
  eapply (markAsRead_twice_restamps 100 200 "alice" ["n2"] sampleWorld "n2").
  - reflexivity.
  - apply list_elem_of_singleton. reflexivity.
  - reflexivity.
Defined.

(** C8.  The claim is that a second [markAsRead] with the same ids
    leaves [readAt] unchanged.  On the sample table, record "n2" of user
    "alice" is marked at instant 100 and again at instant 200: the
    status stays READ, but [readAt] moves from 100 to 200, so the second
    call changes the table. *)
Theorem markAsRead_second_call_changes_readAt :
  let once := markAsRead 100 "alice" ["n2"] sampleWorld in
  let twice := markAsRead 200 "alice" ["n2"] once in
  (status <$> notificationRepo once !! "n2") = Some READ
  ∧ (readAt <$> notificationRepo once !! "n2") = Some (Some 100)
  ∧ (status <$> notificationRepo twice !! "n2") = Some READ
  ∧ (readAt <$> notificationRepo twice !! "n2") = Some (Some 200)
  ∧ notificationRepo twice ≠ notificationRepo once.
Proof.
  split; [reflexivity|]. split; [reflexivity|].
  split; [reflexivity|]. split; [reflexivity|].
  intros Heq. apply (f_equal (λ m, readAt <$> m !! "n2")) in Heq.
  vm_compute in Heq. discriminate.
Qed.

Lemma inWorkspace_given (ws : string) (n : Notification) :
  ws ≠ "" → inWorkspace (Some ws) n ↔ workspaceId n = Some ws.
Proof.
  intros Hws. unfold inWorkspace. simpl. by destruct (String.eqb_spec ws "").
Qed.

(** C9, as amended.  [markAllAsRead] for a user and a non-empty
    workspace id adds and removes no record; a record of that user in
    that workspace whose status is not READ gets status READ and
    [readAt = now], its other columns as before; a record of another
    workspace, of another user, or already READ is unchanged.  Queue,
    rate limits and provider calls are untouched. *)
Theorem markAllAsRead_workspace_frame (now : Z) (user ws : string) (w : World) :
  ws ≠ "" →
  let w' := markAllAsRead now user (Some ws) w in
  (∀ id, notificationRepo w !! id = None → notificationRepo w' !! id = None)
  ∧ (∀ id n, notificationRepo w !! id = Some n →
       (userId n = user → workspaceId n = Some ws → status n ≠ READ →
          notificationRepo w' !! id = Some (setReadAt (Some now) (setStatus READ n))
          ∧ status (setReadAt (Some now) (setStatus READ n)) = READ
          ∧ readAt (setReadAt (Some now) (setStatus READ n)) = Some now)
       ∧ (workspaceId n ≠ Some ws → notificationRepo w' !! id = Some n)
       ∧ (userId n ≠ user → notificationRepo w' !! id = Some n)
       ∧ (status n = READ → notificationRepo w' !! id = Some n))
  ∧ notificationQueue w' = notificationQueue w
  ∧ userRateLimits w' = userRateLimits w
  ∧ providerCalls w' = providerCalls w.
Proof.
  intros Hws w'. subst w'.
  split; [|split; [|done]].
  - intros id Hid. by rewrite markAllAsRead_lookup, Hid.
  - intros id n Hn. rewrite markAllAsRead_lookup, Hn. simpl.
    pose proof (inWorkspace_given ws n Hws) as Hin.
    destruct (decide (userId n = user ∧ status n ≠ READ ∧ inWorkspace (Some ws) n))
      as [(Hu & Hs & Hw)|Hnot].
    + apply Hin in Hw. split; [done|]. split; [done|]. split; [done|]. intros; done.
    + split; [|done]. intros Hu Hw Hs. destruct Hnot. by rewrite Hin.
Qed.

Lemma markAllAsRead_workspace_frame_witness :
  let w' := markAllAsRead 500 "alice" (Some "ws-1") sampleWorld in
  (status <$> notificationRepo w' !! "n1") = Some READ
  ∧ notificationRepo w' !! "n2" = notificationRepo sampleWorld !! "n2"
  ∧ notificationRepo w' !! "n4" = notificationRepo sampleWorld !! "n4".
Proof.
  destruct (markAllAsRead_workspace_frame 500 "alice" "ws-1" sampleWorld) as (_ & H & _).
  - discriminate.
  - split; [|split].
    + destruct (H "n1" _ eq_refl) as (H1 & _).
      destruct H1 as (-> & _); [reflexivity | reflexivity | discriminate | reflexivity].
    + destruct (H "n2" _ eq_refl) as (_ & H2 & _). rewrite H2; [reflexivity | discriminate].
    + destruct (H "n4" _ eq_refl) as (_ & _ & H4 & _). rewrite H4; [reflexivity | discriminate].
Defined.

(** Without a workspace filter, which is also what the empty string
    gives under [if (workspaceId)], every record of the user that is not
    READ is updated, whatever its workspace. *)
Lemma markAllAsRead_no_workspace (now : Z) (user : string) (ws : option string)
    (w : World) (id : string) (n : Notification) :
  truthy ws = false →
  notificationRepo w !! id = Some n → userId n = user → status n ≠ READ →
  notificationRepo (markAllAsRead now user ws w) !! id =
    Some (setReadAt (Some now) (setStatus READ n)).
Proof.
  intros Hws Hn Hu Hs. rewrite markAllAsRead_lookup, Hn. simpl.
  rewrite decide_True; [done|]. unfold inWorkspace. by rewrite Hws.
Qed.

Lemma markAllAsRead_no_workspace_witness :
  (status <$> notificationRepo (markAllAsRead 500 "alice" None sampleWorld) !! "n2")
    = Some READ.
Proof.
  rewrite (markAllAsRead_no_workspace 500 "alice" None sampleWorld "n2"
             (sampleRow "alice" (Some "ws-2") IN_APP "hello" SENT None None None 20));
    [reflexivity | reflexivity | reflexivity | reflexivity | discriminate].
Defined.

(** C9 as stated, for every workspace id, fails at the empty string.  In
    the sample table record "n2" belongs to user "alice" and workspace
    "ws-2"; [markAllAsRead] for "alice" and workspace id "" moves it from
    SENT to READ and stamps [readAt]. *)
Lemma markAllAsRead_empty_workspace_counterexample :
  let w' := markAllAsRead 500 "alice" (Some "") sampleWorld in
  (workspaceId <$> notificationRepo sampleWorld !! "n2") = Some (Some "ws-2")
  ∧ (status <$> notificationRepo sampleWorld !! "n2") = Some SENT
  ∧ (status <$> notificationRepo w' !! "n2") = Some READ
  ∧ (readAt <$> notificationRepo w' !! "n2") = Some (Some 500)
  ∧ notificationRepo w' !! "n2" ≠ notificationRepo sampleWorld !! "n2".
Proof.
  cbv zeta. split; [reflexivity|]. split; [reflexivity|]. split; [reflexivity|].
  split; [reflexivity|]. intros Heq. apply (f_equal (fmap status)) in Heq.
  vm_compute in Heq. discriminate.
Qed.

(** ** Queries *)

Lemma elem_of_rows (w : World) (e : Entity) :
  e ∈ rows w ↔ notificationRepo w !! e.1 = Some e.2.
Proof. unfold rows. destruct e as [id n]. apply elem_of_map_to_list. Qed.

Lemma NoDup_rows (w : World) : NoDup (rows w).
Proof. apply NoDup_map_to_list. Qed.

(** A page of a sorted selection holds selected rows only. *)
Lemma elem_of_page (P : Entity → Prop) `{!∀ e, Decision (P e)}
    (skip size : nat) (l : list Entity) (e : Entity) :
  e ∈ take size (drop skip (merge_sort newerFirst (filter P l))) → P e ∧ e ∈ l.
Proof.
  intros He. apply subseteq_take, subseteq_drop in He.
  rewrite merge_sort_Permutation in He. by apply list_elem_of_filter in He.
Qed.

(** A count that only looks at in-app rows does not depend on the other
    rows of the table. *)
Lemma count_in_app_rows (P : Entity → Prop) `{!∀ e, Decision (P e)} (w1 w2 : World) :
  (∀ e, P e → type e.2 = IN_APP) →
  filter (λ kv : Entity, type kv.2 = IN_APP) (notificationRepo w1) =
    filter (λ kv : Entity, type kv.2 = IN_APP) (notificationRepo w2) →
  length (filter P (rows w1)) = length (filter P (rows w2)).
Proof.
  intros HP Heq. apply Permutation_length, NoDup_Permutation.
  - apply NoDup_filter, NoDup_rows.
  - apply NoDup_filter, NoDup_rows.
  - intros [id n]. rewrite !list_elem_of_filter, !elem_of_rows. simpl.
    split; intros [Hp Hl]; (split; [done|]); pose proof (HP _ Hp) as Ht; simpl in Ht.
    + assert (filter (λ kv : Entity, type kv.2 = IN_APP) (notificationRepo w1) !! id = Some n)
        as Hf by by apply map_lookup_filter_Some.
      rewrite Heq in Hf. by apply map_lookup_filter_Some in Hf as [? _].
    + assert (filter (λ kv : Entity, type kv.2 = IN_APP) (notificationRepo w2) !! id = Some n)
        as Hf by by apply map_lookup_filter_Some.
      rewrite <- Heq in Hf. by apply map_lookup_filter_Some in Hf as [? _].
Qed.

(** C10.  Every notification returned by [getUserNotifications] is the
    response of a stored in-app record of the table; and its [total], as
    well as [getUnreadCount], is the same on any two tables that hold the
    same in-app records, whatever push, email and sms records they hold
    and whatever the status of those. *)
Theorem queries_see_in_app_only (user : string) (ws : option string)
    (page limit : option nat) (w : World) :
  (∀ r, r ∈ (getUserNotifications user ws page limit w).1 →
     Response.type r = IN_APP
     ∧ ∃ n, notificationRepo w !! Response.id r = Some n
            ∧ type n = IN_APP ∧ r = toResponse (Response.id r, n))
  ∧ (∀ w2,
       filter (λ kv : Entity, type kv.2 = IN_APP) (notificationRepo w) =
         filter (λ kv : Entity, type kv.2 = IN_APP) (notificationRepo w2) →
       (getUserNotifications user ws page limit w).2 =
         (getUserNotifications user ws page limit w2).2
       ∧ getUnreadCount user ws w = getUnreadCount user ws w2).
Proof.
  split.
  - intros r Hr. unfold getUserNotifications in Hr. simpl in Hr.
    apply list_elem_of_fmap in Hr as ([id n] & -> & He).
    apply elem_of_page in He as [(Hu & Ht & Hw) Hrow].
    apply elem_of_rows in Hrow. simpl in *. split; [done|]. by exists n.
  - intros w2 Heq. unfold getUserNotifications, getUnreadCount. simpl.
    split; apply count_in_app_rows; try done; by intros e (_ & Ht & _).
Qed.

Lemma queries_see_in_app_only_witness :
  (getUserNotifications "alice" None None None sampleWorld).2 =
    (getUserNotifications "alice" None None None (retryNotification "n7" sampleWorld).2).2
  ∧ getUnreadCount "alice" None sampleWorld =
      getUnreadCount "alice" None (retryNotification "n7" sampleWorld).2.
Proof.
  destruct (queries_see_in_app_only "alice" None None None sampleWorld) as [_ H].
  apply H. vm_compute. reflexivity.
Defined.

(** ** The scheduled sweep *)

Lemma pendingNotifications_NoDup now w : NoDup (pendingNotifications now w).*1.
Proof.
  unfold pendingNotifications, rows.
  eapply sublist_NoDup; [apply (NoDup_fst_map_to_list (notificationRepo w))|].
  apply fmap_sublist. etrans; [apply sublist_take|]. by apply sublist_filter.
Qed.

Lemma elem_of_pendingNotifications now w e :
  e ∈ pendingNotifications now w → notificationRepo w !! e.1 = Some e.2 ∧ isDue now e.2.
Proof.
  unfold pendingNotifications. intros He. apply subseteq_take in He.
  apply list_elem_of_filter in He as [Hdue He]. by apply elem_of_rows in He.
Qed.

Lemma sweepJobs_cons now e rest :
  sweepJobs now (e :: rest) =
    (if isExpired e.2 now then [] else [sendJob e.1 (priority e.2)]) ++ sweepJobs now rest.
Proof. reflexivity. Qed.

Lemma sweepOne_queue now w e :
  notificationQueue (sweepOne now w e) = notificationQueue w ++ sweepJobs now [e].
Proof.
  destruct e as [id n]. unfold sweepOne, sweepJobs. simpl.
  destruct (isExpired n now); simpl; by rewrite ?app_nil_r.
Qed.

Lemma sweepOne_repo now w e :
  notificationRepo (sweepOne now w e) =
    <[e.1 := if isExpired e.2 now
             then setErrorMessage (Some "Notification expired before delivery")
                    (setStatus FAILED e.2)
             else setStatus QUEUED e.2]> (notificationRepo w).
Proof. destruct e as [id n]. unfold sweepOne. simpl. by destruct (isExpired n now). Qed.

Lemma sweep_fold now pending : ∀ w,
  NoDup pending.*1 →
  let w' := foldl (sweepOne now) w pending in
  notificationQueue w' = notificationQueue w ++ sweepJobs now pending
  ∧ (∀ id, id ∉ pending.*1 → notificationRepo w' !! id = notificationRepo w !! id)
  ∧ (∀ e, e ∈ pending →
       notificationRepo w' !! e.1 =
         Some (if isExpired e.2 now
               then setErrorMessage (Some "Notification expired before delivery")
                      (setStatus FAILED e.2)
               else setStatus QUEUED e.2)).
Proof.
  induction pending as [|e0 rest IH]; intros w Hnd; cbv zeta; cbn [foldl].
  - change (sweepJobs now []) with (@nil Queue.Job).
    split; [by rewrite app_nil_r|]. split; [done|]. by intros e ?%elem_of_nil.
  - apply NoDup_cons in Hnd as [Hfresh Hnd].
    destruct (IH (sweepOne now w e0) Hnd) as (Hq & Hother & Hsel).
    split; [|split].
    + rewrite Hq, sweepOne_queue, (sweepJobs_cons now e0 rest), (sweepJobs_cons now e0 []).
      change (sweepJobs now []) with (@nil Queue.Job). by rewrite app_nil_r, app_assoc.
    + intros id Hid. apply not_elem_of_cons in Hid as [Hne Hid].
      rewrite Hother, sweepOne_repo by done. by rewrite lookup_insert_ne.
    + intros e [->|He]%elem_of_cons; [|by apply Hsel].
      rewrite Hother, sweepOne_repo by done. by rewrite lookup_insert_eq.
Qed.

Lemma sweepJobs_other now pending id :
  id ∉ pending.*1 →
  filter (λ j, Queue.notificationId j = id) (sweepJobs now pending) = [].
Proof.
  induction pending as [|e0 rest IH]; [done|]. intros Hid.
  apply not_elem_of_cons in Hid as [Hne Hid].
  rewrite sweepJobs_cons, filter_app, IH by done. rewrite app_nil_r.
  destruct (isExpired e0.2 now); [done|]. by rewrite filter_cons_False.
Qed.

Lemma sweepJobs_selected now pending e :
  NoDup pending.*1 → e ∈ pending →
  filter (λ j, Queue.notificationId j = e.1) (sweepJobs now pending) =
    if isExpired e.2 now then [] else [sendJob e.1 (priority e.2)].
Proof.
  induction pending as [|e0 rest IH]; intros Hnd He; [by apply elem_of_nil in He|].
  apply NoDup_cons in Hnd as [Hfresh Hnd].
  rewrite sweepJobs_cons, filter_app. apply elem_of_cons in He as [->|He].
  - rewrite sweepJobs_other by done. rewrite app_nil_r.
    destruct (isExpired e0.2 now); [done|]. by rewrite filter_cons_True.
  - rewrite IH by done.
    assert (e0.1 ≠ e.1) as Hne.
    { intros Heq. apply Hfresh. rewrite Heq. by apply list_elem_of_fmap_2. }
    destruct (isExpired e0.2 now); [done|]. by rewrite filter_cons_False.
Qed.

Lemma isExpired_true n now : isExpired n now = true ↔ ∃ e, expiresAt n = Some e ∧ e < now.
Proof.
  unfold isExpired. destruct (expiresAt n) as [e|].
  - rewrite Z.ltb_lt. split; [eauto|]. by intros (? & [= <-] & ?).
  - split; [done|]. by intros (? & ? & ?).
Qed.

Lemma isExpired_false n now :
  isExpired n now = false ↔ expiresAt n = None ∨ ∃ e, expiresAt n = Some e ∧ now ≤ e.
Proof.
  unfold isExpired. destruct (expiresAt n) as [e|].
  - rewrite Z.ltb_ge. split; [eauto|]. by intros [?|(? & [= <-] & ?)].
  - split; [by left|done].
Qed.

(** C3.  One tick of the scheduled sweep selects at most 100 records,
    each stored with status PENDING and [scheduledAt <= now].  For every
    selected record: if [expiresAt] is set and before [now], the stored
    record becomes FAILED, its [errorMessage] gives the reason in the
    words "Notification expired before delivery", and the sweep submits
    no job for it;
    otherwise the stored record becomes QUEUED and the sweep submits
    exactly one job for it, with the priority of the record's
    [priority], 3 attempts and exponential backoff from 1000 ms, as
    [send] does. *)
Theorem sweep_promotes_or_expires (now : Z) (w : World) :
  let pending := pendingNotifications now w in
  let w' := processScheduledNotifications now w in
  (length pending ≤ 100)%nat
  ∧ ∃ newJobs,
      notificationQueue w' = notificationQueue w ++ newJobs
      ∧ ∀ id n, (id, n) ∈ pending →
          (notificationRepo w !! id = Some n ∧ status n = PENDING
           ∧ ∃ at_, scheduledAt n = Some at_ ∧ at_ ≤ now)
          ∧ (∀ e, expiresAt n = Some e → e < now →
               (∃ n', notificationRepo w' !! id = Some n'
                      ∧ n' = setErrorMessage (Some "Notification expired before delivery")
                               (setStatus FAILED n)
                      ∧ status n' = FAILED
                      ∧ errorMessage n' = Some "Notification expired before delivery")
               ∧ filter (λ j, Queue.notificationId j = id) newJobs = [])
          ∧ (expiresAt n = None ∨ (∃ e, expiresAt n = Some e ∧ now ≤ e) →
               (∃ n', notificationRepo w' !! id = Some n'
                      ∧ n' = setStatus QUEUED n
                      ∧ status n' = QUEUED
                      ∧ errorMessage n' = errorMessage n)
               ∧ filter (λ j, Queue.notificationId j = id) newJobs =
                   [ {| Queue.name := "send";
                        Queue.notificationId := id;
                        Queue.opts :=
                          Some {| Queue.priority := getPriorityValue (priority n);
                                  Queue.attempts := 3;
                                  Queue.backoff := {| Queue.type := "exponential";
                                                      Queue.delay := 1000 |} |} |} ]).
Proof.
  intros pending w'. split.
  { unfold pending, pendingNotifications. rewrite length_take. lia. }
  exists (sweepJobs now pending).
  pose proof (pendingNotifications_NoDup now w) as Hnd. fold pending in Hnd.
  destruct (sweep_fold now pending w Hnd) as (Hq & _ & Hsel).
  assert (w' = foldl (sweepOne now) w pending) as ->.
  { unfold w', processScheduledNotifications. fold pending. case_bool_decide as Hlen; [|done].
    by apply nil_length_inv in Hlen as ->. }
  split; [done|]. intros id n Hin.
  pose proof (elem_of_pendingNotifications now w _ Hin) as [Hrow [Hst Hat]]. simpl in *.
  pose proof (Hsel _ Hin) as Hrepo. pose proof (sweepJobs_selected now _ _ Hnd Hin) as Hjobs.
  simpl in *. split; [|split].
  - split; [done|]. split; [done|]. destruct (scheduledAt n) as [at_|]; [eauto|done].
  - intros e He Hlt. assert (isExpired n now = true) as Hexp by (apply isExpired_true; eauto).
    rewrite Hexp in Hrepo, Hjobs. split; [|done]. eexists. split; [exact Hrepo|]. done.
  - intros Hlive. apply isExpired_false in Hlive. rewrite Hlive in Hrepo, Hjobs.
    split; [|done]. eexists. split; [exact Hrepo|]. done.
Qed.

Lemma sweep_promotes_or_expires_witness :
  let w' := processScheduledNotifications 1000 sampleWorld in
  ((status <$> notificationRepo w' !! "n8") = Some FAILED
   ∧ (errorMessage <$> notificationRepo w' !! "n8")
       = Some (Some "Notification expired before delivery")
   ∧ (status <$> notificationRepo w' !! "n9") = Some QUEUED)
  ∧ (Queue.notificationId <$> notificationQueue w') = ["n9"].
Proof.
  destruct (sweep_promotes_or_expires 1000 sampleWorld) as (_ & jobs & Hq & H).
  assert (Hn8 : ("n8", sampleRow "alice" None SMS "hello" PENDING (Some 900) (Some 950) None 80)
                  ∈ pendingNotifications 1000 sampleWorld).
  { vm_compute. repeat constructor. }
  assert (Hn9 : ("n9", sampleRow "bob" None IN_APP "hello" PENDING (Some 800) None None 90)
                  ∈ pendingNotifications 1000 sampleWorld).
  { vm_compute. repeat constructor. }
  destruct (H _ _ Hn8) as (_ & Hexp & _). destruct (H _ _ Hn9) as (_ & _ & Hlive).
  destruct (Hexp 950 eq_refl) as [(n8 & R8 & _ & S8 & M8) _]; [lia|].
  destruct Hlive as [(n9 & R9 & _ & S9 & _) _]; [by left|].
  split; [split; [|split]|].
  - cbv zeta. rewrite R8. simpl. by rewrite S8.
  - cbv zeta. rewrite R8. simpl. by rewrite M8.
  - cbv zeta. rewrite R9. simpl. by rewrite S9.
  - reflexivity.
Defined.

(** ** Processing a push notification *)

(** C6.  When a stored push notification that has not expired is
    processed and the device directory returns no device for its user,
    processing returns normally; the stored record becomes FAILED, its
    [errorMessage] reads "No registered devices", and [sentAt] is the
    instant read after the dispatch; no call reaches a provider, and
    nothing is queued. *)
Theorem process_push_no_devices (env : Collaborators) (tExpiry tDelivered tSent : Z)
    (notificationId : string) (w : World) (n : Notification) :
  notificationRepo w !! notificationId = Some n →
  type n = PUSH →
  isExpired n tExpiry = false →
  getUserDevices env (userId n) = inr [] →
  let result := processNotification env tExpiry tDelivered tSent notificationId w in
  result.1 = Returned ()
  ∧ (∃ n', notificationRepo result.2 = <[notificationId := n']> (notificationRepo w)
           ∧ n' = setSentAt (Some tSent)
                    (setErrorMessage (Some "No registered devices") (setStatus FAILED n))
           ∧ status n' = FAILED
           ∧ errorMessage n' = Some "No registered devices"
           ∧ sentAt n' = Some tSent)
  ∧ providerCalls result.2 = providerCalls w
  ∧ notificationQueue result.2 = notificationQueue w.
Proof.
  intros Hrow Htype Hlive Hdev result. subst result.
  unfold processNotification. rewrite Hrow, Hlive, Htype.
  unfold sendPushNotification. rewrite Hdev. simpl.
  split; [done|]. split; [|done]. eexists. split; [reflexivity|]. done.
Qed.

Lemma process_push_no_devices_witness :
  let result := processNotification sampleEnv 1000 1001 1002 "n6" sampleWorld in
  result.1 = Returned ()
  ∧ (errorMessage <$> notificationRepo result.2 !! "n6") = Some (Some "No registered devices")
  ∧ (sentAt <$> notificationRepo result.2 !! "n6") = Some (Some 1002)
  ∧ providerCalls result.2 = [].
Proof.
  destruct (process_push_no_devices sampleEnv 1000 1001 1002 "n6" sampleWorld
              (sampleRow "nodevice" None PUSH "hello" QUEUED None None None 60))
    as (Hret & (n' & Hrepo & Hn' & _) & Hcalls & _); try reflexivity.
  cbv zeta. split; [exact Hret|]. rewrite Hrepo, Hcalls, lookup_insert_eq, Hn'.
  repeat split; reflexivity.
Defined.

(** A result that counts a failed destination is not a success. *)
Lemma sendToDevices_failure initialized sdk tokens payload :
  Firebase.failureCount (Firebase.sendToDevices initialized sdk tokens payload) ≠ 0 →
  Firebase.success (Firebase.sendToDevices initialized sdk tokens payload) = false.
Proof.
  unfold Firebase.sendToDevices. destruct initialized; simpl; [|done].
  case_bool_decide; simpl; [done|].
  destruct (sdk tokens payload) as [message|response]; simpl; [done|].
  intros Hne. by apply Z.eqb_neq.
Qed.

Lemma getFailedNotifications_failed limit w e :
  e ∈ getFailedNotifications limit w →
  notificationRepo w !! e.1 = Some e.2 ∧ status e.2 = FAILED.
Proof.
  unfold getFailedNotifications. intros He.
  apply (elem_of_page (λ e : Entity, status e.2 = FAILED) 0) in He as [Hst He].
  by apply elem_of_rows in He.
Qed.

(** What [processNotification] does with a stored, live push
    notification whose user has devices. *)
Lemma process_push_with_devices env tExpiry tDelivered tSent id w n devices :
  notificationRepo w !! id = Some n →
  type n = PUSH →
  isExpired n tExpiry = false →
  getUserDevices env (userId n) = inr devices →
  devices ≠ [] →
  let pushed :=
    Firebase.sendToDevices (firebaseInitialized env) (sendEachForMulticast env)
                           (token <$> devices) (pushPayload (id, n)) in
  processNotification env tExpiry tDelivered tSent id w =
    (Returned (),
     save (id,
           setSentAt (Some tSent)
             (if Firebase.success pushed then setStatus SENT n
              else if 0 <? Firebase.successCount pushed then
                setErrorMessage
                  (Some ("Partial delivery: " +:+ pretty (Firebase.failureCount pushed)
                         +:+ " failed"))
                  (setStatus SENT n)
              else
                setErrorMessage
                  (Some (firstErrorOr (Firebase.errors pushed) "All devices failed"))
                  (setStatus FAILED n)))
          (recordCall (PushSend (token <$> devices) (pushPayload (id, n))) w)).
Proof.
  intros Hrow Htype Hlive Hdev Hsome pushed.
  unfold processNotification. rewrite Hrow, Hlive, Htype.
  unfold sendPushNotification. rewrite Hdev.
  rewrite bool_decide_eq_false_2 by (by destruct devices).
  fold pushed. destruct (Firebase.success pushed); [done|].
  by destruct (0 <? Firebase.successCount pushed).
Qed.

(** C4.  A stored push notification that has not expired is processed
    for a user with at least one device; [pushed] is the result of the
    provider's multicast.  If it counts at least one success and at least
    one failure, the stored record has status SENT, not FAILED, and its
    [errorMessage] is the non-empty text "Partial delivery: <failureCount>
    failed"; no call of [getFailedNotifications] returns the record.  If
    it counts no success and at least one failure, the stored record has
    status FAILED and its [errorMessage] is the text of the first error
    the provider reported. *)
Theorem process_push_multicast (env : Collaborators) (tExpiry tDelivered tSent : Z)
    (notificationId : string) (w : World) (n : Notification) (devices : list Device) :
  notificationRepo w !! notificationId = Some n →
  type n = PUSH →
  isExpired n tExpiry = false →
  getUserDevices env (userId n) = inr devices →
  devices ≠ [] →
  let pushed :=
    Firebase.sendToDevices (firebaseInitialized env) (sendEachForMulticast env)
                           (token <$> devices) (pushPayload (notificationId, n)) in
  let result := processNotification env tExpiry tDelivered tSent notificationId w in
  ∃ n', notificationRepo result.2 !! notificationId = Some n'
    ∧ (0 < Firebase.successCount pushed → 0 < Firebase.failureCount pushed →
         status n' = SENT ∧ status n' ≠ FAILED
         ∧ errorMessage n' =
             Some ("Partial delivery: " +:+ pretty (Firebase.failureCount pushed) +:+ " failed")
         ∧ errorMessage n' ≠ None ∧ errorMessage n' ≠ Some ""
         ∧ ∀ limit e, e ∈ getFailedNotifications limit result.2 → e.1 ≠ notificationId)
    ∧ (Firebase.successCount pushed ≤ 0 → 0 < Firebase.failureCount pushed →
         status n' = FAILED
         ∧ ∀ first others, Firebase.errors pushed = first :: others →
             Firebase.error first ≠ "" →
             errorMessage n' = Some (Firebase.error first)).
Proof.
  intros Hrow Htype Hlive Hdev Hsome pushed result. subst result.
  rewrite (process_push_with_devices env tExpiry tDelivered tSent notificationId w n devices)
    by done.
  fold pushed. eexists. split; [apply lookup_insert_eq|]. split.
  - intros Hs Hf.
    assert (Firebase.success pushed = false) as ->.
    { apply sendToDevices_failure. fold pushed. lia. }
    rewrite (proj2 (Z.ltb_lt _ _) Hs). simpl.
    split; [done|]. split; [done|]. split; [done|]. split; [done|]. split; [done|].
    intros limit e He Heq. apply getFailedNotifications_failed in He as [He Hst].
    rewrite Heq in He. simpl in He. rewrite lookup_insert_eq in He.
    injection He as He. by rewrite <- He in Hst.
  - intros Hs Hf.
    assert (Firebase.success pushed = false) as ->.
    { apply sendToDevices_failure. fold pushed. lia. }
    rewrite (proj2 (Z.ltb_ge _ _) Hs). simpl. split; [done|].
    intros first others -> Hne. simpl. by destruct (String.eqb_spec (Firebase.error first) "").
Qed.

Lemma process_push_multicast_witness :
  let partial := (processNotification sampleEnv 1000 1001 1002 "n1" sampleWorld).2 in
  let failed := (processNotification sampleEnv 1000 1001 1002 "n5" sampleWorld).2 in
  ((status <$> notificationRepo partial !! "n1") = Some SENT
   ∧ (errorMessage <$> notificationRepo partial !! "n1")
       = Some (Some "Partial delivery: 1 failed")
   ∧ (∀ e, e ∈ getFailedNotifications None partial → e.1 ≠ "n1"))
  ∧ (status <$> notificationRepo failed !! "n5") = Some FAILED
  ∧ (errorMessage <$> notificationRepo failed !! "n5")
      = Some (Some "Requested entity was not found.").
Proof.
  destruct (process_push_multicast sampleEnv 1000 1001 1002 "n1" sampleWorld
              (sampleRow "alice" (Some "ws-1") PUSH "hello" QUEUED None None None 10)
              sampleTokens)
    as (n1 & Hrow1 & Hpartial & _); try reflexivity; [discriminate|].
  destruct (process_push_multicast sampleEnv 1000 1001 1002 "n5" sampleWorld
              (sampleRow "alice" (Some "ws-1") PUSH "doomed" QUEUED None None None 50)
              sampleTokens)
    as (n5 & Hrow5 & _ & Hfailed); try reflexivity; [discriminate|].
  destruct Hpartial as (Hst1 & _ & Hmsg1 & _ & _ & Hnot); [reflexivity | reflexivity |].
  destruct Hfailed as (Hst5 & Hmsg5); [discriminate | reflexivity |].
  cbv zeta. rewrite Hrow1, Hrow5. simpl. rewrite Hst1, Hmsg1, Hst5.
  rewrite (Hmsg5 _ _ eq_refl) by discriminate.
  repeat split; try reflexivity. apply Hnot.
Defined.


(** * Further properties *)

(** ** The rate limiter's counters *)

Lemma checkRateLimit_bounds now u m :
  map_Forall (λ _ e, 1 ≤ count e ≤ RATE_LIMIT_MAX) m →
  map_Forall (λ _ e, 1 ≤ count e ≤ RATE_LIMIT_MAX) (checkRateLimit now u m).2.
Proof.
  intros Hm. unfold checkRateLimit.
  destruct (m !! u) as [e|] eqn:He; simpl.
  - destruct (resetAt e <? now); simpl.
    + apply map_Forall_insert_2; [done|done].
    + destruct (RATE_LIMIT_MAX <=? count e) eqn:Hc; simpl; [done|].
      apply Z.leb_gt in Hc. apply map_Forall_insert_2; [|done].
      specialize (Hm _ _ He). simpl in *. lia.
  - apply map_Forall_insert_2; [done|done].
Qed.

(** X1.  Whatever calls are made, by whatever users and at whatever
    instants, the counters of the rate-limit map stay between 1 and 100
    once they are: a rejected call does not count, and no window records
    more than 100 admitted calls. *)
Theorem rate_limit_counters_bounded (calls : list (string * Z)) (m : gmap string RateEntry) :
  map_Forall (λ _ e, 1 ≤ count e ≤ 100) m →
  map_Forall (λ _ e, 1 ≤ count e ≤ 100) (checkRateLimitCalls calls m).2.
Proof.
  revert m. induction calls as [|[user now] rest IH]; intros m Hm; [done|].
  cbn [checkRateLimitCalls].
  pose proof (checkRateLimit_bounds now user m Hm) as Hstep.
  destruct (checkRateLimit now user m) as [ok m1]. simpl in Hstep.
  specialize (IH m1 Hstep). by destruct (checkRateLimitCalls rest m1).
Qed.

Lemma rate_limit_counters_bounded_witness :
  map_Forall (λ _ e, 1 ≤ count e ≤ 100)
    (checkRateLimitCalls (("a", 5) :: replicate 150 ("b", 7) ++ [("a", 70000)]) ∅).2.
Proof.
  apply (rate_limit_counters_bounded _ ∅). apply map_Forall_empty.
Defined.

(** ** Counting over an updated table *)

(** A table obtained by rewriting each row in place holds the rewritten
    rows. *)
Lemma rows_pointwise (g : string → Notification → Notification) (w w' : World) :
  (∀ id, notificationRepo w' !! id = g id <$> notificationRepo w !! id) →
  rows w' ≡ₚ (λ e : Entity, (e.1, g e.1 e.2)) <$> rows w.
Proof.
  intros Hg. apply NoDup_Permutation.
  - apply NoDup_rows.
  - apply (NoDup_fmap_1 fst). rewrite <- list_fmap_compose.
    apply (NoDup_fst_map_to_list (notificationRepo w)).
  - intros [id n']. rewrite elem_of_rows, list_elem_of_fmap. cbn [fst snd]. rewrite Hg. split.
    + destruct (notificationRepo w !! id) as [n|] eqn:Hn; [|done].
      cbn [fmap option_fmap option_map]. intros [= <-]. exists (id, n). split; [done|].
      by apply elem_of_rows.
    + intros ([id0 n] & [= -> ->] & Hin). apply elem_of_rows in Hin. cbn [fst snd] in Hin.
      by rewrite Hin.
Qed.


Lemma length_filter_fmap {A B} (f : A → B) (P : B → Prop) (Q : A → Prop)
    `{!∀ x, Decision (P x)} `{!∀ x, Decision (Q x)} (l : list A) :
  (∀ x, x ∈ l → P (f x) ↔ Q x) →
  length (filter P (f <$> l)) = length (filter Q l).
Proof.
  induction l as [|a l IH]; intros HPQ; [done|].
  assert (length (filter P (f <$> l)) = length (filter Q l)) as IH'
    by (apply IH; intros x Hx; apply HPQ; by right).
  rewrite fmap_cons, !filter_cons.
  destruct (decide (P (f a))) as [Hp|Hp], (decide (Q a)) as [Hq|Hq]; simpl; try lia.
  - exfalso. apply Hq, HPQ; [left|done].
  - exfalso. apply Hp, HPQ; [left|done].
Qed.

(** Counting rows after rewriting each row in place. *)
Lemma count_pointwise (g : string → Notification → Notification) (w w' : World)
    (P : Entity → Prop) `{!∀ e, Decision (P e)} :
  (∀ id, notificationRepo w' !! id = g id <$> notificationRepo w !! id) →
  (∀ id n, notificationRepo w !! id = Some n → P (id, g id n) ↔ P (id, n)) →
  length (filter P (rows w')) = length (filter P (rows w)).
Proof.
  intros Hg HP. rewrite (rows_pointwise g w w' Hg).
  apply length_filter_fmap. intros [id n] Hin. apply elem_of_rows in Hin. by apply HP.
Qed.


(** Overwriting a stored row is rewriting that row in place. *)
Lemma save_pointwise (w : World) (id : string) (n n' : Notification) :
  notificationRepo w !! id = Some n →
  ∀ k, notificationRepo (save (id, n') w) !! k =
         (λ k x, if decide (k = id) then n' else x) k <$> notificationRepo w !! k.
Proof.
  intros Hn k. unfold save. cbn [notificationRepo fst snd].
  destruct (decide (k = id)) as [->|Hne].
  - by rewrite lookup_insert_eq, Hn.
  - rewrite lookup_insert_ne by done. by destruct (notificationRepo w !! k).
Qed.

(** ** Processing, on every path *)

(** The setters of the mutable columns leave the content alone. *)
Ltac same_content := unfold sameContent; simpl; repeat split; reflexivity.

Lemma sameContent_refl n : sameContent n n.
Proof. same_content. Qed.

Lemma sendPushNotification_effect env id n w :
  channelEffect n w (sendPushNotification env (id, n) w).
Proof.
  unfold channelEffect, sendPushNotification.
  destruct (getUserDevices env (userId n)) as [message|devices]; [done|].
  case_bool_decide; simpl.
  { split; [same_content|]. repeat split; auto. }
  destruct (Firebase.success _); simpl.
  { split; [same_content|]. repeat split; eauto. }
  destruct (0 <? _); simpl; (split; [same_content|]); repeat split; eauto.
Qed.

Lemma sendEmailNotification_effect env id n w :
  channelEffect n w (sendEmailNotification env (id, n) w).
Proof.
  unfold channelEffect, sendEmailNotification.
  destruct (data n ≫= _) as [to|]; simpl.
  - destruct (negb _); simpl.
    { split; [same_content|]. repeat split; auto. }
    destruct (Email.success _); simpl;
      (split; [same_content|]); repeat split; eauto.
  - split; [same_content|]. repeat split; auto.
Qed.

Lemma sendSmsNotification_effect env id n w :
  channelEffect n w (sendSmsNotification env (id, n) w).
Proof.
  unfold channelEffect, sendSmsNotification.
  destruct (data n ≫= _) as [to|]; simpl.
  - destruct (negb _); simpl.
    { split; [same_content|]. repeat split; auto. }
    destruct (Sms.success _); simpl;
      (split; [same_content|]); repeat split; eauto.
  - split; [same_content|]. repeat split; auto.
Qed.

(** X2.  Processing a job touches one record at most: the queue, the
    rate limits and every record with another id are as before; with no
    record of that id nothing changes at all.  The record processed keeps
    its owner, workspace, type, content, priority, schedule, expiry,
    [readAt] and [createdAt]; its status ends as SENT, DELIVERED or
    FAILED; and at most one call reaches a provider. *)
Theorem processNotification_frame (env : Collaborators) (tExpiry tDelivered tSent : Z)
    (notificationId : string) (w : World) :
  let result := processNotification env tExpiry tDelivered tSent notificationId w in
  notificationQueue result.2 = notificationQueue w
  ∧ userRateLimits result.2 = userRateLimits w
  ∧ (∀ id, id ≠ notificationId →
       notificationRepo result.2 !! id = notificationRepo w !! id)
  ∧ (notificationRepo w !! notificationId = None → result = (Returned (), w))
  ∧ (∀ n, notificationRepo w !! notificationId = Some n →
       ∃ n', notificationRepo result.2 !! notificationId = Some n'
             ∧ sameContent n n'
             ∧ (status n' = SENT ∨ status n' = DELIVERED ∨ status n' = FAILED))
  ∧ (providerCalls result.2 = providerCalls w
     ∨ ∃ c, providerCalls result.2 = providerCalls w ++ [c]).
Proof.
  intros result. subst result. unfold processNotification.
  destruct (notificationRepo w !! notificationId) as [n|] eqn:Hrow; simpl;
    [|repeat split; auto; by intros n [=]].
  destruct (isExpired n tExpiry); simpl.
  { do 2 (split; [done|]). split; [intros id Hne; by rewrite lookup_insert_ne|].
    split; [done|]. split; [|by left].
    intros ? [= <-]. eexists. rewrite lookup_insert_eq. split; [done|].
    split; [same_content|auto]. }
  assert (∀ r, channelEffect n w r →
    let result :=
      match r.1 with
      | Returned n0 => (Returned (), save (notificationId, setSentAt (Some tSent) n0) r.2)
      | Thrown message =>
          (Thrown message,
           save (notificationId,
                 setRetryCount (retryCount n + 1)
                   (setErrorMessage (Some message) (setStatus FAILED n))) r.2)
      end in
    notificationQueue result.2 = notificationQueue w
    ∧ userRateLimits result.2 = userRateLimits w
    ∧ (∀ id, id ≠ notificationId →
         notificationRepo result.2 !! id = notificationRepo w !! id)
    ∧ (∃ n', notificationRepo result.2 !! notificationId = Some n'
             ∧ sameContent n n'
             ∧ (status n' = SENT ∨ status n' = DELIVERED ∨ status n' = FAILED))
    ∧ (providerCalls result.2 = providerCalls w
       ∨ ∃ c, providerCalls result.2 = providerCalls w ++ [c])) as Hgen.
  { intros [[n0|message] w0]; unfold channelEffect; simpl.
    - intros (Hsame & Hst & _ & _ & _ & Hrepo & Hq & Hl & Hcalls).
      split; [done|]. split; [done|].
      split; [intros id Hne; by rewrite lookup_insert_ne, Hrepo|].
      split; [|done]. eexists. rewrite lookup_insert_eq. split; [done|].
      split; [exact Hsame|]. simpl. tauto.
    - intros ->. split; [done|]. split; [done|].
      split; [intros id Hne; by rewrite lookup_insert_ne|].
      split; [|by left]. eexists. rewrite lookup_insert_eq. split; [done|].
      split; [same_content|]. simpl. auto. }
  assert (∀ r : Outcome Notification * World,
    (let '(sent, w0) := r in
     match sent with
     | Returned n0 => (Returned (), save (notificationId, setSentAt (Some tSent) n0) w0)
     | Thrown message =>
         (Thrown message,
          save (notificationId,
                setRetryCount (retryCount n + 1)
                  (setErrorMessage (Some message) (setStatus FAILED n))) w0)
     end) =
    match r.1 with
    | Returned n0 => (Returned (), save (notificationId, setSentAt (Some tSent) n0) r.2)
    | Thrown message =>
        (Thrown message,
         save (notificationId,
               setRetryCount (retryCount n + 1)
                 (setErrorMessage (Some message) (setStatus FAILED n))) r.2)
    end) as Hshape by (by intros [[?|?] ?]).
  rewrite Hshape.
  assert (channelEffect n w
    match type n with
    | PUSH => sendPushNotification env (notificationId, n) w
    | EMAIL => sendEmailNotification env (notificationId, n) w
    | SMS => sendSmsNotification env (notificationId, n) w
    | IN_APP => (Returned (setDeliveredAt (Some tDelivered) (setStatus DELIVERED n)), w)
    end ∨ type n = IN_APP) as [Heff|Hinapp].
  { destruct (type n); [left; apply sendPushNotification_effect
                        |left; apply sendEmailNotification_effect
                        |left; apply sendSmsNotification_effect
                        |by right]. }
  - destruct (Hgen _ Heff) as (H1 & H2 & H3 & H4 & H5).
    split; [done|]. split; [done|]. split; [done|]. split; [done|].
    split; [|done]. by intros ? [= <-].
  - rewrite Hinapp. simpl. split; [done|]. split; [done|].
    split; [intros id Hne; by rewrite lookup_insert_ne|]. split; [done|].
    split; [|by left]. intros ? [= <-]. eexists. rewrite lookup_insert_eq.
    split; [done|]. split; [same_content|]. simpl. auto.
Qed.

Lemma sendEmailNotification_returns env e w :
  ∃ n', (sendEmailNotification env e w).1 = Returned n'.
Proof.
  destruct e as [id n]. unfold sendEmailNotification.
  destruct (data n ≫= _); simpl; [|eauto].
  destruct (negb _); simpl; [eauto|]. destruct (Email.success _); simpl; eauto.
Qed.

Lemma sendSmsNotification_returns env e w :
  ∃ n', (sendSmsNotification env e w).1 = Returned n'.
Proof.
  destruct e as [id n]. unfold sendSmsNotification.
  destruct (data n ≫= _); simpl; [|eauto].
  destruct (negb _); simpl; [eauto|]. destruct (Sms.success _); simpl; eauto.
Qed.

(** X3.  When the device directory throws for a stored push
    notification that has not expired, [processNotification] records the
    failure and rejects with the directory's error, so the queue sees the
    job fail: the stored record is FAILED, its [errorMessage] is the
    message of the error, its [retryCount] is one higher, and [sentAt],
    [deliveredAt] and the content are as they were; no provider has been
    called and nothing is queued.  The record is then among the failed
    records, and [retryNotification] accepts it. *)
Theorem processNotification_throws (env : Collaborators) (tExpiry tDelivered tSent : Z)
    (notificationId : string) (w : World) (n : Notification) (message : string) :
  notificationRepo w !! notificationId = Some n →
  isExpired n tExpiry = false →
  type n = PUSH →
  getUserDevices env (userId n) = inl message →
  let result := processNotification env tExpiry tDelivered tSent notificationId w in
  result.1 = Thrown message
  ∧ (∃ n', notificationRepo result.2 = <[notificationId := n']> (notificationRepo w)
           ∧ status n' = FAILED
           ∧ errorMessage n' = Some message
           ∧ retryCount n' = retryCount n + 1
           ∧ sentAt n' = sentAt n ∧ deliveredAt n' = deliveredAt n
           ∧ sameContent n n')
  ∧ providerCalls result.2 = providerCalls w
  ∧ notificationQueue result.2 = notificationQueue w
  ∧ userRateLimits result.2 = userRateLimits w
  ∧ (retryNotification notificationId result.2).1 = true.
Proof.
  intros Hrow Hlive Htype Hdev result. subst result.
  unfold processNotification. rewrite Hrow, Hlive, Htype.
  unfold sendPushNotification. rewrite Hdev. cbn [fst snd].
  split; [done|]. split; [|split; [done|split; [done|split; [done|]]]].
  - eexists. split; [reflexivity|]. repeat (split; [reflexivity|]). same_content.
  - unfold retryNotification. cbn [save notificationRepo fst snd].
    by rewrite lookup_insert_eq.
Qed.

Lemma processNotification_throws_witness :
  let result := processNotification directoryDownEnv 1000 1001 1002 "n1" sampleWorld in
  result.1 = Thrown "connection refused"
  ∧ (status <$> notificationRepo result.2 !! "n1") = Some FAILED
  ∧ (errorMessage <$> notificationRepo result.2 !! "n1") = Some (Some "connection refused")
  ∧ (retryCount <$> notificationRepo result.2 !! "n1") = Some 1
  ∧ providerCalls result.2 = [].
Proof.
  destruct (processNotification_throws directoryDownEnv 1000 1001 1002 "n1" sampleWorld
              (sampleRow "alice" (Some "ws-1") PUSH "hello" QUEUED None None None 10)
              "connection refused")
    as (Hret & (n' & Hrepo & Hst & Hmsg & Hretry & _) & Hcalls & _);
    [reflexivity | reflexivity | reflexivity | reflexivity |].
  cbv zeta. split; [exact Hret|]. rewrite Hrepo, Hcalls, lookup_insert_eq.
  cbn [fmap option_fmap option_map]. rewrite Hst, Hmsg, Hretry. repeat split; reflexivity.
Defined.

(** X4.  Processing an in-app notification that has not expired
    consults no collaborator: the outcome and the state afterwards are
    the same under any two sets of collaborators, no provider is called
    and nothing is queued.  Processing returns normally; the stored record
    has status DELIVERED, [deliveredAt] and [sentAt] are the instants read
    for them, and [errorMessage], [retryCount] and the content are as
    before.  The inbox of every user keeps its [total]. *)
Theorem processNotification_in_app (env : Collaborators) (tExpiry tDelivered tSent : Z)
    (notificationId : string) (w : World) (n : Notification) :
  notificationRepo w !! notificationId = Some n →
  type n = IN_APP →
  isExpired n tExpiry = false →
  let result := processNotification env tExpiry tDelivered tSent notificationId w in
  result.1 = Returned ()
  ∧ (∃ n', notificationRepo result.2 = <[notificationId := n']> (notificationRepo w)
           ∧ status n' = DELIVERED
           ∧ deliveredAt n' = Some tDelivered
           ∧ sentAt n' = Some tSent
           ∧ errorMessage n' = errorMessage n
           ∧ retryCount n' = retryCount n
           ∧ sameContent n n')
  ∧ providerCalls result.2 = providerCalls w
  ∧ notificationQueue result.2 = notificationQueue w
  ∧ (∀ env', processNotification env' tExpiry tDelivered tSent notificationId w = result)
  ∧ (∀ user ws page limit,
       (getUserNotifications user ws page limit result.2).2 =
         (getUserNotifications user ws page limit w).2).
Proof.
  intros Hrow Htype Hlive result. subst result.
  unfold processNotification. rewrite Hrow, Hlive, Htype. cbn [fst snd].
  split; [done|]. split; [|split; [done|split; [done|split; [done|]]]].
  - eexists. split; [reflexivity|]. repeat (split; [reflexivity|]). same_content.
  - intros user ws page limit. unfold getUserNotifications. cbn [fst snd].
    eapply count_pointwise; [exact (save_pointwise w notificationId n _ Hrow)|].
    intros id x Hx. cbn [fst snd]. destruct (decide (id = notificationId)) as [->|]; [|done].
    rewrite Hrow in Hx. injection Hx as <-. done.
Qed.

Lemma processNotification_in_app_witness :
  let result := processNotification directoryDownEnv 1000 1001 1002 "n2" sampleWorld in
  result.1 = Returned ()
  ∧ (status <$> notificationRepo result.2 !! "n2") = Some DELIVERED
  ∧ (deliveredAt <$> notificationRepo result.2 !! "n2") = Some (Some 1001)
  ∧ (sentAt <$> notificationRepo result.2 !! "n2") = Some (Some 1002)
  ∧ providerCalls result.2 = []
  ∧ processNotification sampleEnv 1000 1001 1002 "n2" sampleWorld = result.
Proof.
  destruct (processNotification_in_app directoryDownEnv 1000 1001 1002 "n2" sampleWorld
              (sampleRow "alice" (Some "ws-2") IN_APP "hello" SENT None None None 20))
    as (Hret & (n' & Hrepo & Hst & Hdel & Hsent & _) & Hcalls & _ & Henv & _);
    [reflexivity | reflexivity | reflexivity |].
  cbv zeta. split; [exact Hret|]. rewrite Hrepo, Hcalls, lookup_insert_eq.
  cbn [fmap option_fmap option_map]. rewrite Hst, Hdel, Hsent.
  split; [reflexivity|]. split; [reflexivity|]. split; [reflexivity|]. split; [reflexivity|].
  exact (Henv sampleEnv).
Defined.

(** X5.  A record that has expired when its job is processed is stored
    as FAILED with [errorMessage] "Notification expired" and is not
    dispatched: no provider is called and [sentAt], [deliveredAt] and
    [retryCount] stay as they were, whatever the type of the record. *)
Theorem processNotification_expired (env : Collaborators) (tExpiry tDelivered tSent : Z)
    (notificationId : string) (w : World) (n : Notification) (e : Z) :
  notificationRepo w !! notificationId = Some n →
  expiresAt n = Some e → e < tExpiry →
  let result := processNotification env tExpiry tDelivered tSent notificationId w in
  result.1 = Returned ()
  ∧ (∃ n', notificationRepo result.2 = <[notificationId := n']> (notificationRepo w)
           ∧ status n' = FAILED ∧ errorMessage n' = Some "Notification expired"
           ∧ sentAt n' = sentAt n ∧ deliveredAt n' = deliveredAt n
           ∧ retryCount n' = retryCount n)
  ∧ providerCalls result.2 = providerCalls w.
Proof.
  intros Hrow He Hlt result. subst result. unfold processNotification.
  rewrite Hrow. assert (isExpired n tExpiry = true) as -> by (apply isExpired_true; eauto).
  simpl. split; [done|]. split; [|done]. eexists. split; [reflexivity|]. done.
Qed.

Lemma processNotification_expired_witness :
  let result := processNotification sampleEnv 1000 1001 1002 "n8" sampleWorld in
  (errorMessage <$> notificationRepo result.2 !! "n8") = Some (Some "Notification expired")
  ∧ providerCalls result.2 = [].
Proof.
  destruct (processNotification_expired sampleEnv 1000 1001 1002 "n8" sampleWorld
              (sampleRow "alice" None SMS "hello" PENDING (Some 900) (Some 950) None 80) 950)
    as (_ & (n' & Hrepo & _ & Hmsg & _) & Hcalls); try reflexivity.
  cbv zeta. rewrite Hrepo, Hcalls, lookup_insert_eq. simpl. by rewrite Hmsg.
Defined.





(** ** Reading and marking *)

Lemma filter_none {A} (P : A → Prop) `{!∀ x, Decision (P x)} (l : list A) :
  (∀ x, x ∈ l → ¬ P x) → filter P l = [].
Proof.
  induction l as [|x l IH]; intros Hnone; [done|].
  rewrite filter_cons_False by (apply Hnone; left).
  apply IH. intros y Hy. apply Hnone. by right.
Qed.



(** X9.  After [markAllAsRead] for a user, [getUnreadCount] for that user
    and the same workspace argument is 0; after [markAllAsRead] without a
    workspace it is 0 for every workspace argument. *)
Theorem markAllAsRead_clears_unread (now : Z) (user : string) (ws : option string)
    (w : World) :
  getUnreadCount user ws (markAllAsRead now user ws w) = 0%nat
  ∧ (truthy ws = false →
       ∀ ws', getUnreadCount user ws' (markAllAsRead now user ws w) = 0%nat).
Proof.
  assert (∀ ws', (truthy ws = false ∨ ws' = ws) →
            getUnreadCount user ws' (markAllAsRead now user ws w) = 0%nat) as H.
  { intros ws' Hws. unfold getUnreadCount. rewrite filter_none; [done|].
    intros [id y] Hy (Hu & Ht & Hs & Hw).
    apply elem_of_rows in Hy. cbn [fst snd] in *. rewrite markAllAsRead_lookup in Hy.
    destruct (notificationRepo w !! id) as [x|]; [|done].
    cbn [fmap option_fmap option_map] in Hy. injection Hy as <-.
    destruct (decide (userId x = user ∧ status x ≠ READ ∧ inWorkspace ws x)) as [?|Hnot];
      [done|].
    apply Hnot. split; [done|]. split; [done|].
    destruct Hws as [Hws| ->]; [|done]. unfold inWorkspace. by rewrite Hws. }
  split; [apply H; by right|]. intros Hws ws'. apply H. by left.
Qed.

Global Instance newerFirst_trans : Transitive newerFirst.
Proof. unfold newerFirst. intros a b c ??. lia. Qed.

Global Instance newerFirst_total : Total newerFirst.
Proof. unfold newerFirst. intros a b. lia. Qed.

Lemma StronglySorted_lookup_le {A} (R : relation A) `{!Reflexive R} (l : list A) :
  StronglySorted R l →
  ∀ i j a b, (i ≤ j)%nat → l !! i = Some a → l !! j = Some b → R a b.
Proof.
  induction 1 as [|x l Hl IH Hx]; intros i j a b Hij Ha Hb; [done|].
  destruct i as [|i], j as [|j]; simpl in *; try lia.
  - by simplify_eq.
  - injection Ha as <-. rewrite Forall_forall in Hx. apply Hx.
    by eapply list_elem_of_lookup_2.
  - eapply (IH i j); [lia|done..].
Qed.

(** A page of a selection sorted newest first: sorted, without a
    repetition, made of selected stored rows. *)
Lemma page_sorted (P : Entity → Prop) `{!∀ e, Decision (P e)} (skip size : nat) (w : World) :
  let page := take size (drop skip (merge_sort newerFirst (filter P (rows w)))) in
  StronglySorted newerFirst page ∧ NoDup page.*1 ∧ (length page ≤ size)%nat
  ∧ (length page ≤ length (filter P (rows w)))%nat
  ∧ ((length (filter P (rows w)) ≤ skip)%nat → page = []).
Proof.
  intros page. subst page.
  set (sorted := merge_sort newerFirst (filter P (rows w))).
  assert (StronglySorted newerFirst sorted) as Hs
    by (apply StronglySorted_merge_sort; apply _).
  assert (length sorted = length (filter P (rows w))) as Hlen
    by (unfold sorted; by rewrite merge_sort_Permutation).
  split; [|split; [|split; [|split]]].
  - rewrite <- (take_drop skip sorted) in Hs. apply StronglySorted_app_1_r in Hs.
    rewrite <- (take_drop size (drop skip sorted)) in Hs.
    by apply StronglySorted_app_1_l in Hs.
  - assert (NoDup sorted.*1) as Hnd.
    { unfold sorted. rewrite merge_sort_Permutation.
      eapply sublist_NoDup; [apply (NoDup_fst_map_to_list (notificationRepo w))|].
      apply fmap_sublist. by apply sublist_filter. }
    eapply sublist_NoDup; [exact Hnd|]. apply fmap_sublist.
    etrans; [apply sublist_take|apply sublist_drop].
  - rewrite length_take. lia.
  - rewrite length_take, length_drop. lia.
  - intros Hskip. rewrite drop_ge by lia. by rewrite take_nil.
Qed.

Global Instance newerFirst_refl : Reflexive newerFirst.
Proof. unfold newerFirst. intros a. lia. Qed.

(** X10.  A page of [getUserNotifications] holds at most [limit]
    responses (20 by default) and never more than [total]; they are in
    order of [createdAt], newest first, no record twice; each belongs to
    the user and, with a workspace filter, to that workspace.  [total] does
    not depend on the page asked for, and a page that starts at or past
    [total] is empty. *)
Theorem getUserNotifications_page (user : string) (ws : option string)
    (page limit : option nat) (w : World) :
  let result := getUserNotifications user ws page limit w in
  (length result.1 ≤ default 20 limit)%nat
  ∧ (length result.1 ≤ result.2)%nat
  ∧ (∀ i j a b, (i ≤ j)%nat → result.1 !! i = Some a → result.1 !! j = Some b →
       Response.createdAt b ≤ Response.createdAt a)
  ∧ NoDup (Response.id <$> result.1)
  ∧ (∀ a, a ∈ result.1 →
       Response.userId a = user
       ∧ (truthy ws = true → Response.workspaceId a = ws))
  ∧ (∀ page' limit', (getUserNotifications user ws page' limit' w).2 = result.2)
  ∧ ((result.2 ≤ default 0 page * default 20 limit)%nat → result.1 = []).
Proof.
  intros result. subst result. unfold getUserNotifications. cbn [fst snd].
  set (P := λ e : Entity, userId e.2 = user ∧ type e.2 = IN_APP ∧ inWorkspace ws e.2).
  destruct (page_sorted P (default 0 page * default 20 limit)%nat (default 20 limit)%nat w)
    as (Hsorted & Hnd & Hsize & Htotal & Hpast).
  set (notifications := take _ (drop _ _)) in *.
  split; [by rewrite length_fmap|]. split; [by rewrite length_fmap|].
  split; [|split; [|split; [|split]]].
  - intros i j a b Hij Ha Hb. rewrite list_lookup_fmap in Ha, Hb.
    destruct (notifications !! i) as [[ia na]|] eqn:Hi; [|done].
    destruct (notifications !! j) as [[ib nb]|] eqn:Hj; [|done].
    simpl in Ha, Hb. injection Ha as <-. injection Hb as <-.
    apply (StronglySorted_lookup_le newerFirst notifications Hsorted i j _ _ Hij Hi Hj).
  - replace (Response.id <$> (toResponse <$> notifications)) with notifications.*1; [done|].
    rewrite <- list_fmap_compose. apply list_fmap_ext. by intros ? [??] ?.
  - intros a Ha. apply list_elem_of_fmap in Ha as ([id n] & -> & He).
    apply elem_of_page in He as [(Hu & _ & Hw) _]. simpl in *. split; [done|].
    intros Hws. unfold inWorkspace in Hw. by rewrite Hws in Hw.
  - done.
  - intros Hp. by rewrite Hpast.
Qed.

(** X11.  [getFailedNotifications] returns at most [limit] records (50
    by default), each a stored record with status FAILED, newest first,
    none twice; when the table has no more than [limit] FAILED records
    it returns all of them. *)
Theorem getFailedNotifications_list (limit : option nat) (w : World) :
  let found := getFailedNotifications limit w in
  (length found ≤ default 50 limit)%nat
  ∧ (∀ e, e ∈ found → notificationRepo w !! e.1 = Some e.2 ∧ status e.2 = FAILED)
  ∧ (∀ i j a b, (i ≤ j)%nat → found !! i = Some a → found !! j = Some b →
       createdAt b.2 ≤ createdAt a.2)
  ∧ NoDup found.*1
  ∧ ((length (filter (λ e : Entity, status e.2 = FAILED) (rows w)) ≤ default 50 limit)%nat →
       ∀ id n, notificationRepo w !! id = Some n → status n = FAILED → (id, n) ∈ found).
Proof.
  intros found. subst found. unfold getFailedNotifications.
  set (P := λ e : Entity, status e.2 = FAILED).
  destruct (page_sorted P 0%nat (default 50 limit)%nat w)
    as (Hsorted & Hnd & Hsize & _ & _).
  rewrite drop_0 in *.
  split; [done|]. split; [|split; [|split; [done|]]].
  - intros e He. by apply getFailedNotifications_failed in He.
  - intros i j a b Hij Ha Hb.
    apply (StronglySorted_lookup_le newerFirst _ Hsorted i j _ _ Hij Ha Hb).
  - intros Hall id n Hrow Hst. rewrite take_ge.
    + rewrite merge_sort_Permutation. apply list_elem_of_filter. split; [done|].
      by apply elem_of_rows.
    + by rewrite merge_sort_Permutation.
Qed.

(** ** Statistics *)

Lemma length_filter_by_status (Q : Entity → Prop) `{!∀ e, Decision (Q e)} (l : list Entity) :
  length (filter Q l) =
    (length (filter (λ e : Entity, Q e ∧ status e.2 = SENT) l)
     + length (filter (λ e : Entity, Q e ∧ status e.2 = DELIVERED) l)
     + length (filter (λ e : Entity, Q e ∧ status e.2 = FAILED) l)
     + length (filter (λ e : Entity, Q e ∧ status e.2 = READ) l)
     + length (filter (λ e : Entity, Q e ∧ status e.2 = PENDING) l)
     + length (filter (λ e : Entity, Q e ∧ status e.2 = QUEUED) l))%nat.
Proof.
  induction l as [|e l IH]; [done|].
  rewrite !filter_cons.
  repeat case_decide; simpl; try lia;
    exfalso; destruct (status e.2) eqn:?; intuition congruence.
Qed.

(** X12.  The figures of [getStats] leave one status out: [total] is the
    sum of [sent], [delivered], [failed], [read] and [pending] plus the
    number of QUEUED records (of the workspace, with a workspace filter).
    So the five figures add up to [total] exactly when no counted record
    is QUEUED, and never exceed it. *)
Theorem getStats_total (ws : option string) (w : World) :
  let stats := getStats ws w in
  Stats.total stats =
    (Stats.sent stats + Stats.delivered stats + Stats.failed stats
     + Stats.read stats + Stats.pending stats + countStatus ws QUEUED w)%nat
  ∧ (Stats.sent stats + Stats.delivered stats + Stats.failed stats
     + Stats.read stats + Stats.pending stats ≤ Stats.total stats)%nat.
Proof.
  intros stats. subst stats. unfold getStats, countStatus. cbn.
  rewrite (length_filter_by_status (λ e : Entity, inWorkspace ws e.2) (rows w)).
  split; lia.
Qed.

(** ** Retrying *)

(** X13.  A retry cannot be repeated: whatever the first call of
    [retryNotification] did, a second call for the same id returns
    [false] and changes nothing, so one failure yields at most one new
    job; and after a retry that returned [true] the record is no longer
    among the results of [getFailedNotifications]. *)
Theorem retryNotification_once (notificationId : string) (w : World) :
  let first := retryNotification notificationId w in
  retryNotification notificationId first.2 = (false, first.2)
  ∧ (length (notificationQueue first.2) ≤ S (length (notificationQueue w)))%nat
  ∧ (first.1 = true →
       ∀ limit e, e ∈ getFailedNotifications limit first.2 → e.1 ≠ notificationId).
Proof.
  intros first. subst first.
  destruct (notificationRepo w !! notificationId) as [n|] eqn:Hrow.
  - destruct (decide (status n = FAILED)) as [Hst|Hst].
    + assert (retryNotification notificationId w =
                (true, queueAdd (sendJob notificationId (priority n))
                         (save (notificationId, setErrorMessage None (setStatus QUEUED n)) w)))
        as -> by (unfold retryNotification; by rewrite Hrow, bool_decide_eq_true_2).
      cbn [fst snd]. split; [|split].
      * unfold retryNotification. simpl. by rewrite lookup_insert_eq.
      * simpl. rewrite length_app. simpl. lia.
      * intros _ limit e He Heq. apply getFailedNotifications_failed in He as [He Hf].
        rewrite Heq in He. simpl in He. rewrite lookup_insert_eq in He.
        injection He as He. by rewrite <- He in Hf.
    + assert (retryNotification notificationId w = (false, w)) as Hsame
        by (unfold retryNotification; by rewrite Hrow, bool_decide_eq_false_2).
      rewrite Hsame. cbn [fst snd]. split; [done|]. split; [lia|done].
  - assert (retryNotification notificationId w = (false, w)) as Hsame
      by (unfold retryNotification; by rewrite Hrow).
    rewrite Hsame. cbn [fst snd]. split; [done|]. split; [lia|done].
Qed.

(** ** The sweep and the records it does not select *)

Lemma sweep_fold_rest now pending : ∀ w,
  userRateLimits (foldl (sweepOne now) w pending) = userRateLimits w
  ∧ providerCalls (foldl (sweepOne now) w pending) = providerCalls w.
Proof.
  induction pending as [|[id n] rest IH]; intros w; [done|]. cbn [foldl].
  destruct (IH (sweepOne now w (id, n))) as [-> ->].
  unfold sweepOne. by destruct (isExpired n now).
Qed.

Lemma processScheduledNotifications_fold now w :
  processScheduledNotifications now w = foldl (sweepOne now) w (pendingNotifications now w).
Proof.
  unfold processScheduledNotifications. case_bool_decide as Hlen; [|done].
  by apply nil_length_inv in Hlen as ->.
Qed.

Lemma elem_of_sweepJobs now pending j :
  j ∈ sweepJobs now pending →
  ∃ e, e ∈ pending ∧ isExpired e.2 now = false ∧ j = sendJob e.1 (priority e.2).
Proof.
  unfold sweepJobs. intros Hj. apply list_elem_of_bind in Hj as (e & Hj & He).
  exists e. split; [done|]. destruct (isExpired e.2 now); [by apply elem_of_nil in Hj|].
  by apply list_elem_of_singleton in Hj.
Qed.

(** A record that is not due is not selected. *)
Lemma not_due_not_selected now w id n :
  notificationRepo w !! id = Some n → ¬ isDue now n → id ∉ (pendingNotifications now w).*1.
Proof.
  intros Hrow Hdue Hin. apply list_elem_of_fmap in Hin as ([id' n'] & -> & He).
  apply elem_of_pendingNotifications in He as [Hrow' Hdue']. simpl in *. congruence.
Qed.

(** X14.  One tick of the sweep leaves alone every record that is not
    PENDING, has no [scheduledAt], or is scheduled after [now]; it adds
    and removes no record; it only appends to the queue, and every job it
    appends is for a record that was PENDING, due and not expired.  So a
    notification scheduled for a later instant stays PENDING and gets no
    job.  Rate limits and provider calls are untouched. *)
Theorem sweep_leaves_others (now : Z) (w : World) :
  let w' := processScheduledNotifications now w in
  (∀ id n, notificationRepo w !! id = Some n → ¬ isDue now n →
     notificationRepo w' !! id = Some n)
  ∧ (∀ id n at_, notificationRepo w !! id = Some n → scheduledAt n = Some at_ → now < at_ →
       notificationRepo w' !! id = Some n)
  ∧ (∀ id, notificationRepo w !! id = None → notificationRepo w' !! id = None)
  ∧ (∃ newJobs, notificationQueue w' = notificationQueue w ++ newJobs
       ∧ ∀ j, j ∈ newJobs →
           ∃ n, notificationRepo w !! Queue.notificationId j = Some n
                ∧ status n = PENDING
                ∧ (∃ at_, scheduledAt n = Some at_ ∧ at_ ≤ now)
                ∧ isExpired n now = false)
  ∧ userRateLimits w' = userRateLimits w
  ∧ providerCalls w' = providerCalls w.
Proof.
  intros w'. subst w'. rewrite processScheduledNotifications_fold.
  pose proof (pendingNotifications_NoDup now w) as Hnd.
  destruct (sweep_fold now _ w Hnd) as (Hq & Hother & _).
  destruct (sweep_fold_rest now (pendingNotifications now w) w) as [Hl Hc].
  assert (∀ id n, notificationRepo w !! id = Some n → ¬ isDue now n →
            notificationRepo (foldl (sweepOne now) w (pendingNotifications now w)) !! id
              = Some n) as Hkeep.
  { intros id n Hrow Hdue. rewrite Hother; [done|]. by eapply not_due_not_selected. }
  split; [done|]. split; [|split; [|split; [|done]]].
  - intros id n at_ Hrow Hat Hlt. apply Hkeep; [done|].
    intros [_ Hdue]. rewrite Hat in Hdue. lia.
  - intros id Hrow. rewrite Hother; [done|].
    intros Hin. apply list_elem_of_fmap in Hin as ([id' n'] & -> & He).
    apply elem_of_pendingNotifications in He as [Hrow' _]. simpl in *. congruence.
  - eexists. split; [exact Hq|]. intros j Hj.
    apply elem_of_sweepJobs in Hj as ([id n] & He & Hlive & ->).
    apply elem_of_pendingNotifications in He as [Hrow [Hst Hat]]. simpl in *.
    exists n. split; [done|]. split; [done|]. split; [|done].
    destruct (scheduledAt n) as [at_|]; [eauto|done].
Qed.

(** X15.  No record is swept twice: a record selected by one tick is
    not selected by any later tick, whatever the later instant; and when
    at most 100 records are due, a second tick at the same instant
    changes nothing. *)
Theorem sweep_once (now : Z) (w : World) :
  let w' := processScheduledNotifications now w in
  (∀ later e, e ∈ pendingNotifications later w' →
     e.1 ∉ (pendingNotifications now w).*1)
  ∧ ((length (filter (λ e : Entity, isDue now e.2) (rows w)) ≤ 100)%nat →
       processScheduledNotifications now w' = w').
Proof.
  intros w'. subst w'. rewrite processScheduledNotifications_fold.
  set (pending := pendingNotifications now w).
  pose proof (pendingNotifications_NoDup now w) as Hnd. fold pending in Hnd.
  destruct (sweep_fold now pending w Hnd) as (_ & Hother & Hsel).
  set (w' := foldl (sweepOne now) w pending) in *.
  assert (∀ later e, e ∈ pendingNotifications later w' → e.1 ∉ pending.*1) as Honce.
  { intros later e He Hin.
    apply elem_of_pendingNotifications in He as [Hrow [Hst _]].
    apply list_elem_of_fmap in Hin as (e0 & Heq & He0).
    rewrite Heq, (Hsel _ He0) in Hrow. injection Hrow as Hrow.
    rewrite <- Hrow in Hst. by destruct (isExpired e0.2 now). }
  split; [done|]. intros Hfew.
  assert (pendingNotifications now w' = []) as Hnone.
  { destruct (pendingNotifications now w') as [|e rest] eqn:Hp; [done|]. exfalso.
    assert (e ∈ pendingNotifications now w') as He by (rewrite Hp; left).
    pose proof (Honce now e He) as Hnot.
    apply elem_of_pendingNotifications in He as [Hrow Hdue].
    rewrite Hother in Hrow by done. apply Hnot.
    apply list_elem_of_fmap. exists e. split; [done|].
    unfold pending, pendingNotifications. rewrite take_ge by done.
    apply list_elem_of_filter. split; [done|]. by apply elem_of_rows. }
  by rewrite processScheduledNotifications_fold, Hnone.
Qed.

Lemma sweep_once_witness :
  processScheduledNotifications 1000 (processScheduledNotifications 1000 sampleWorld)
    = processScheduledNotifications 1000 sampleWorld.
Proof.
  destruct (sweep_once 1000 sampleWorld) as [_ H]. apply H. vm_compute. lia.
Defined.

(** ** From [send] to the sweep and to the queries *)

(** The row an admitted [send] stores. *)
Lemma send_admitted env now gen dto w :
  (checkRateLimit now (Dto.userId dto) (userRateLimits w)).1 = true →
  canSendNotification env (Dto.userId dto) (Dto.workspaceId dto) (Dto.type dto) = true →
  ∃ n,
    userId n = Dto.userId dto ∧ workspaceId n = Dto.workspaceId dto
    ∧ type n = Dto.type dto ∧ priority n = Dto.priority dto
    ∧ scheduledAt n = Dto.scheduledAt dto ∧ expiresAt n = Dto.expiresAt dto
    ∧ status n = (if isPresent (Dto.scheduledAt dto) then PENDING else QUEUED)
    ∧ notificationRepo (send env now gen dto w).2 = <[newId gen := n]> (notificationRepo w)
    ∧ notificationQueue (send env now gen dto w).2 =
        notificationQueue w ++
        (if isPresent (Dto.scheduledAt dto) then []
         else [sendJob (newId gen) (Dto.priority dto)]).
Proof.
  intros Hadmit Hcan. unfold send.
  destruct (checkRateLimit now (Dto.userId dto) (userRateLimits w)) as [admitted limits].
  simpl in Hadmit. subst admitted. rewrite Hcan. cbn [negb].
  match goal with |- context [save (newId gen, ?row)] => exists row end.
  do 7 (split; [reflexivity|]).
  destruct (Dto.scheduledAt dto); simpl; by rewrite ?app_nil_r.
Qed.

(** X16.  A notification sent with [scheduledAt = t] is not queued by
    [send].  A later sweep at an instant before [t] submits no job for it
    and leaves it PENDING.  A sweep at an instant from [t] on, before the
    expiry if there is one and with at most 100 records due, stores it as
    QUEUED and submits exactly one job for it: the job an immediate
    [send] would have submitted. *)
Theorem scheduled_send_then_sweep (env : Collaborators) (now : Z) (gen : Generated)
    (dto : Dto.SendNotificationDto) (w : World) (t : Z) :
  (checkRateLimit now (Dto.userId dto) (userRateLimits w)).1 = true →
  canSendNotification env (Dto.userId dto) (Dto.workspaceId dto) (Dto.type dto) = true →
  Dto.scheduledAt dto = Some t →
  let w1 := (send env now gen dto w).2 in
  notificationQueue w1 = notificationQueue w
  ∧ (∀ later, later < t →
       let w2 := processScheduledNotifications later w1 in
       (status <$> notificationRepo w2 !! newId gen) = Some PENDING
       ∧ ∀ newJobs, notificationQueue w2 = notificationQueue w1 ++ newJobs →
           ∀ j, j ∈ newJobs → Queue.notificationId j ≠ newId gen)
  ∧ (∀ later, t ≤ later →
       (∀ e, Dto.expiresAt dto = Some e → later ≤ e) →
       (length (filter (λ e : Entity, isDue later e.2) (rows w1)) ≤ 100)%nat →
       let w2 := processScheduledNotifications later w1 in
       (status <$> notificationRepo w2 !! newId gen) = Some QUEUED
       ∧ ∃ newJobs, notificationQueue w2 = notificationQueue w1 ++ newJobs
           ∧ filter (λ j, Queue.notificationId j = newId gen) newJobs =
               [ {| Queue.name := "send";
                    Queue.notificationId := newId gen;
                    Queue.opts :=
                      Some {| Queue.priority := getPriorityValue (Dto.priority dto);
                              Queue.attempts := 3;
                              Queue.backoff := {| Queue.type := "exponential";
                                                  Queue.delay := 1000 |} |} |} ]).
Proof.
  intros Hadmit Hcan Hsched w1.
  destruct (send_admitted env now gen dto w Hadmit Hcan)
    as (n & Hu & Hws & Hty & Hprio & Hat & Hexp & Hst & Hrepo & Hq).
  fold w1 in Hrepo, Hq. rewrite Hsched in Hat, Hst, Hq. simpl in Hst, Hq.
  rewrite app_nil_r in Hq.
  assert (notificationRepo w1 !! newId gen = Some n) as Hrow
    by (rewrite Hrepo; apply lookup_insert_eq).
  split; [done|]. split.
  - intros later Hlt w2. subst w2.
    assert (¬ isDue later n) as Hdue by (intros [_ Hd]; rewrite Hat in Hd; lia).
    rewrite processScheduledNotifications_fold.
    pose proof (pendingNotifications_NoDup later w1) as Hnd.
    destruct (sweep_fold later _ w1 Hnd) as (Hq2 & Hother & _).
    pose proof (not_due_not_selected later w1 _ _ Hrow Hdue) as Hnot.
    split; [rewrite Hother by done; rewrite Hrow; simpl; by rewrite Hst|].
    intros newJobs Hjobs j Hj Hid. rewrite Hq2 in Hjobs. apply app_inv_head in Hjobs.
    subst newJobs. apply elem_of_sweepJobs in Hj as (e & He & _ & ->). simpl in Hid.
    apply Hnot. rewrite <- Hid. by apply list_elem_of_fmap_2.
  - intros later Hle Hlive Hfew w2. subst w2.
    rewrite processScheduledNotifications_fold.
    pose proof (pendingNotifications_NoDup later w1) as Hnd.
    destruct (sweep_fold later _ w1 Hnd) as (Hq2 & _ & Hsel).
    assert ((newId gen, n) ∈ pendingNotifications later w1) as Hin.
    { unfold pendingNotifications. rewrite take_ge by done.
      apply list_elem_of_filter. split; [|by apply elem_of_rows].
      split; [done|]. simpl. by rewrite Hat. }
    assert (isExpired n later = false) as Hne.
    { apply isExpired_false. rewrite Hexp. destruct (Dto.expiresAt dto) as [e|]; [|by left].
      right. exists e. split; [done|]. by apply Hlive. }
    pose proof (Hsel _ Hin) as Hnew. pose proof (sweepJobs_selected later _ _ Hnd Hin) as Hjob.
    simpl in Hnew, Hjob. rewrite Hne in Hnew, Hjob.
    split; [by rewrite Hnew|]. eexists. split; [exact Hq2|].
    rewrite Hjob, Hprio. done.
Qed.

Lemma scheduled_send_then_sweep_witness :
  let w1 := (send sampleEnv 1000 {| newId := "n10"; newCreatedAt := 1000 |}
                  (sampleDto "alice" (Some 5000)) sampleWorld).2 in
  notificationQueue w1 = []
  ∧ (status <$> notificationRepo (processScheduledNotifications 4999 w1) !! "n10")
      = Some PENDING
  ∧ (status <$> notificationRepo (processScheduledNotifications 5000 w1) !! "n10")
      = Some QUEUED.
Proof.
  destruct (scheduled_send_then_sweep sampleEnv 1000 {| newId := "n10"; newCreatedAt := 1000 |}
              (sampleDto "alice" (Some 5000)) sampleWorld 5000)
    as (Hq & Hearly & Hdue); [reflexivity | reflexivity | reflexivity |].
  cbv zeta. split; [exact Hq|]. split.
  - apply (Hearly 4999). lia.
  - apply (Hdue 5000); [lia | discriminate | vm_compute; lia].
Defined.

Lemma rows_save_fresh (w : World) (id : string) (n : Notification) :
  notificationRepo w !! id = None → rows (save (id, n) w) ≡ₚ (id, n) :: rows w.
Proof. intros Hfresh. unfold rows, save. simpl. by apply map_to_list_insert. Qed.

(** X17.  After an admitted [send] of an in-app notification under an
    id that was free, the user's [total] and unread count (without a
    workspace filter) are one higher, whether or not the notification is
    scheduled; the counts of every other user are as before, for every
    workspace argument. *)
Theorem send_in_app_counted (env : Collaborators) (now : Z) (gen : Generated)
    (dto : Dto.SendNotificationDto) (w : World) :
  (checkRateLimit now (Dto.userId dto) (userRateLimits w)).1 = true →
  canSendNotification env (Dto.userId dto) (Dto.workspaceId dto) (Dto.type dto) = true →
  Dto.type dto = IN_APP →
  notificationRepo w !! newId gen = None →
  let w1 := (send env now gen dto w).2 in
  (∀ page limit,
     (getUserNotifications (Dto.userId dto) None page limit w1).2 =
       S (getUserNotifications (Dto.userId dto) None page limit w).2)
  ∧ getUnreadCount (Dto.userId dto) None w1 = S (getUnreadCount (Dto.userId dto) None w)
  ∧ (∀ user ws page limit, user ≠ Dto.userId dto →
       (getUserNotifications user ws page limit w1).2 =
         (getUserNotifications user ws page limit w).2
       ∧ getUnreadCount user ws w1 = getUnreadCount user ws w).
Proof.
  intros Hadmit Hcan Htype Hfresh w1.
  destruct (send_admitted env now gen dto w Hadmit Hcan)
    as (n & Hu & Hws & Hty & Hprio & Hat & Hexp & Hst & Hrepo & Hq).
  fold w1 in Hrepo.
  assert (rows w1 ≡ₚ (newId gen, n) :: rows w) as Hrows.
  { unfold rows. rewrite Hrepo. by apply map_to_list_insert. }
  assert (status n ≠ READ) as Hunread by (rewrite Hst; by destruct (isPresent _)).
  unfold getUserNotifications, getUnreadCount. cbn [fst snd].
  split; [|split].
  - intros _ _. rewrite Hrows, filter_cons_True; [done|]. simpl. by rewrite Hu, Hty, Htype.
  - rewrite Hrows, filter_cons_True; [done|]. simpl. by rewrite Hu, Hty, Htype.
  - intros user ws _ _ Hne.
    split; rewrite Hrows, filter_cons_False; try done; simpl; rewrite Hu; by intros [? _].
Qed.

Lemma send_in_app_counted_witness :
  let dto :=
    {| Dto.userId := "carol"; Dto.workspaceId := None; Dto.type := IN_APP;
       Dto.title := "Welcome"; Dto.body := "Hello"; Dto.data := None;
       Dto.priority := None; Dto.category := None; Dto.actionUrl := None;
       Dto.imageUrl := None; Dto.scheduledAt := None; Dto.expiresAt := None |} in
  getUnreadCount "carol" None
    (send sampleEnv 1000 {| newId := "n10"; newCreatedAt := 1000 |} dto sampleWorld).2
  = S (getUnreadCount "carol" None sampleWorld).
Proof.
  intros dto.
  destruct (send_in_app_counted sampleEnv 1000 {| newId := "n10"; newCreatedAt := 1000 |}
              dto sampleWorld) as (_ & Hcount & _);
    [reflexivity | reflexivity | reflexivity | reflexivity |].
  exact Hcount.
Defined.

(** ** Bulk sending *)

Lemma bulkAdmit_run env clock dto userIds : ∀ i m,
  let calls := imap (λ j user, (user, clock (i + j)%nat)) userIds in
  let run := checkRateLimitCalls calls m in
  (bulkAdmit env clock i dto userIds m).2 = run.2
  ∧ (bulkAdmit env clock i dto userIds m).1 =
      (filter (λ p : string * bool,
                 p.2 = true
                 ∧ canSendNotification env p.1 (BulkDto.workspaceId dto) (BulkDto.type dto)
                   = true)
              (zip userIds run.1)).*1.
Proof.
  induction userIds as [|user rest IH]; intros i m; [done|].
  cbn [bulkAdmit]. rewrite imap_cons. cbn [checkRateLimitCalls].
  rewrite Nat.add_0_r.
  destruct (checkRateLimit (clock i) user m) as [admitted m1].
  specialize (IH (S i) m1). cbv zeta in IH.
  rewrite (imap_ext _ ((λ j u, (u, clock (i + j)%nat)) ∘ S)) in IH
    by (intros j u _; simpl; do 2 f_equal; lia).
  destruct IH as [IH2 IH1].
  destruct (bulkAdmit env clock (S i) dto rest m1) as [valid limits'].
  destruct (checkRateLimitCalls _ m1) as [oks m2]. simpl in IH1, IH2. subst.
  cbn [zip zip_with fst snd].
  destruct admitted; cbn [negb].
  - destruct (canSendNotification env user _ _) eqn:Hcan; cbn [negb fst snd].
    + split; [done|]. rewrite filter_cons_True by (simpl; by split). by rewrite fmap_cons.
    + split; [done|]. rewrite filter_cons_False; [done|]. simpl. intros [_ ?]. congruence.
  - cbn [fst snd]. split; [done|]. rewrite filter_cons_False; [done|]. by intros [? _].
Qed.

Lemma bulkAdmit_sublist env clock dto userIds : ∀ i m,
  (bulkAdmit env clock i dto userIds m).1 `sublist_of` userIds
  ∧ Forall (λ user, canSendNotification env user (BulkDto.workspaceId dto)
                      (BulkDto.type dto) = true)
           (bulkAdmit env clock i dto userIds m).1.
Proof.
  induction userIds as [|user rest IH]; intros i m; [done|].
  cbn [bulkAdmit]. destruct (checkRateLimit (clock i) user m) as [admitted m1].
  specialize (IH (S i) m1).
  destruct (bulkAdmit env clock (S i) dto rest m1) as [valid limits']. simpl in IH.
  destruct IH as [Hsub Hall].
  destruct admitted; cbn [negb fst]; [|split; [by apply sublist_cons|done]].
  destruct (canSendNotification env user _ _) eqn:Hcan; cbn [negb fst].
  - split; [by apply sublist_skip|by constructor].
  - split; [by apply sublist_cons|done].
Qed.

Lemma foldl_save (l : list Entity) : ∀ w,
  let w' := foldl (λ w notification, save notification w) w l in
  notificationQueue w' = notificationQueue w
  ∧ userRateLimits w' = userRateLimits w
  ∧ providerCalls w' = providerCalls w
  ∧ ∀ id, (id ∈ l.*1 → ∃ e, e ∈ l ∧ e.1 = id ∧ notificationRepo w' !! id = Some e.2)
          ∧ (id ∉ l.*1 → notificationRepo w' !! id = notificationRepo w !! id).
Proof.
  induction l as [|e rest IH]; intros w; cbv zeta; cbn [foldl].
  - do 3 (split; [done|]). intros id. split; [by intros ?%elem_of_nil|done].
  - destruct (IH (save e w)) as (Hq & Hl & Hc & Hrepo). cbv zeta in *.
    do 3 (split; [done|]). intros id. destruct (Hrepo id) as [Hin Hout].
    destruct (decide (id ∈ rest.*1)) as [Hid|Hid].
    + split; [|intros Hnot; exfalso; apply Hnot; simpl; by right].
      intros _. destruct (Hin Hid) as (e' & ? & ? & ?). exists e'. split; [by right|done].
    + split.
      * intros [->|?]%elem_of_cons; [|done]. exists e. split; [by left|]. split; [done|].
        rewrite Hout by done. simpl. apply lookup_insert_eq.
      * intros [Hne _]%not_elem_of_cons. rewrite Hout by done. simpl.
        by rewrite lookup_insert_ne.
Qed.

Lemma foldl_queueAdd (l : list Entity) : ∀ w,
  let w' := foldl (λ w (n : Entity), queueAdd (bulkJob n.1) w) w l in
  notificationQueue w' = notificationQueue w ++ (bulkJob <$> l.*1)
  ∧ userRateLimits w' = userRateLimits w
  ∧ providerCalls w' = providerCalls w
  ∧ notificationRepo w' = notificationRepo w.
Proof.
  induction l as [|e rest IH]; intros w; cbv zeta; cbn [foldl].
  - by rewrite app_nil_r.
  - destruct (IH (queueAdd (bulkJob e.1) w)) as (-> & -> & -> & ->). simpl.
    by rewrite <- app_assoc.
Qed.

Lemma imap_bulkJob (f : nat → string) (g : nat → string → Notification)
    (valid : list string) :
  bulkJob <$> (imap (λ j user, (f j, g j user)) valid).*1 = imap (λ j _, bulkJob (f j)) valid.
Proof.
  revert f g. induction valid as [|u valid IH]; intros f g; [done|].
  rewrite !imap_cons. simpl. f_equal. apply (IH (f ∘ S) (g ∘ S)).
Qed.

(** X18.  [sendBulk] returns the number of users it queued for; these
    users are listed users, in the order of the list, each allowed by the
    preference gate, so [queued] is at most the number of listed users.
    The queue receives one job per such user, in order, each named "send"
    and carrying no options: no priority, no attempts, no backoff.  The
    record stored under each job's id has status QUEUED, no [scheduledAt]
    and no [expiresAt], and the type, title, body and workspace of the
    request.  Records under other ids are as before, and no provider is
    called. *)
Theorem sendBulk_queued (env : Collaborators) (clock : nat → Z) (gen : nat → Generated)
    (dto : BulkDto.SendBulkNotificationDto) (w : World) :
  let result := sendBulk env clock gen dto w in
  ∃ valid : list string,
    valid `sublist_of` BulkDto.userIds dto
    ∧ result.1 = length valid
    ∧ (result.1 ≤ length (BulkDto.userIds dto))%nat
    ∧ (∀ user, user ∈ valid →
         canSendNotification env user (BulkDto.workspaceId dto) (BulkDto.type dto) = true)
    ∧ notificationQueue result.2 =
        notificationQueue w ++
        imap (λ j _, {| Queue.name := "send"; Queue.notificationId := newId (gen j);
                        Queue.opts := None |}) valid
    ∧ (∀ j user, valid !! j = Some user →
         ∃ n, notificationRepo result.2 !! newId (gen j) = Some n
              ∧ status n = QUEUED ∧ scheduledAt n = None ∧ expiresAt n = None
              ∧ type n = BulkDto.type dto ∧ title n = BulkDto.title dto
              ∧ body n = BulkDto.body dto ∧ workspaceId n = BulkDto.workspaceId dto
              ∧ userId n ∈ valid)
    ∧ (∀ id, (∀ j, (j < length valid)%nat → newId (gen j) ≠ id) →
         notificationRepo result.2 !! id = notificationRepo w !! id)
    ∧ providerCalls result.2 = providerCalls w.
Proof.
  intros result. subst result. unfold sendBulk.
  destruct (bulkAdmit_sublist env clock dto (BulkDto.userIds dto) 0 (userRateLimits w))
    as [Hsub Hall].
  destruct (bulkAdmit env clock 0 dto (BulkDto.userIds dto) (userRateLimits w))
    as [valid limits]. simpl in Hsub, Hall.
  set (rowsOf := imap (λ j user, (newId (gen j), bulkRow dto user (newCreatedAt (gen j)))) valid).
  destruct (foldl_save rowsOf (setRateLimits limits w)) as (Hq1 & _ & Hc1 & Hrepo1).
  destruct (foldl_queueAdd rowsOf
              (foldl (λ w notification, save notification w) (setRateLimits limits w) rowsOf))
    as (Hq2 & _ & Hc2 & Hrepo2).
  cbv zeta in *. cbn [fst snd].
  assert (∀ e, e ∈ rowsOf → ∃ j user, valid !! j = Some user
            ∧ e = (newId (gen j), bulkRow dto user (newCreatedAt (gen j)))) as Hrows.
  { intros e He. apply list_elem_of_lookup in He as [j Hj]. unfold rowsOf in Hj.
    rewrite list_lookup_imap in Hj. destruct (valid !! j) as [user|] eqn:Hv; [|done].
    injection Hj as <-. eauto. }
  assert (length rowsOf = length valid) as Hlen by (unfold rowsOf; by rewrite length_imap).
  exists valid. split; [done|]. split; [done|].
  split; [rewrite Hlen; by apply sublist_length|].
  split; [by apply Forall_forall|].
  split; [|split; [|split]].
  - rewrite Hq2, Hq1. simpl. f_equal. unfold rowsOf.
    apply (imap_bulkJob (λ j, newId (gen j))
             (λ j user, bulkRow dto user (newCreatedAt (gen j)))).
  - intros j user Hv. rewrite Hrepo2.
    destruct (Hrepo1 (newId (gen j))) as [Hin _].
    destruct Hin as (e & He & Hid & Hlook).
    { apply list_elem_of_fmap. exists (newId (gen j), bulkRow dto user (newCreatedAt (gen j))).
      split; [done|]. apply list_elem_of_lookup. exists j. unfold rowsOf.
      by rewrite list_lookup_imap, Hv. }
    destruct (Hrows e He) as (j' & user' & Hv' & ->). simpl in Hlook.
    eexists. split; [exact Hlook|]. simpl. do 7 (split; [done|]).
    by eapply list_elem_of_lookup_2.
  - intros id Hid. rewrite Hrepo2. destruct (Hrepo1 id) as [_ Hout]. rewrite Hout; [done|].
    intros Hin. apply list_elem_of_fmap in Hin as (e & -> & He).
    destruct (Hrows e He) as (j & user & Hv & ->). simpl in Hid.
    apply (Hid j); [|done]. by eapply lookup_lt_Some.
  - by rewrite Hc2, Hc1.
Qed.

(** X19.  In a bulk request every listed user makes one call on the
    rate limiter, in list order, whether or not the preference gate then
    allows the user: the rate-limit map afterwards is that of these
    calls, and [queued] counts the users whose call was admitted and whom
    the gate allows.  An empty list queues nothing and changes nothing. *)
Theorem sendBulk_rate_limit (env : Collaborators) (clock : nat → Z) (gen : nat → Generated)
    (dto : BulkDto.SendBulkNotificationDto) (w : World) :
  let calls := imap (λ j user, (user, clock j)) (BulkDto.userIds dto) in
  let run := checkRateLimitCalls calls (userRateLimits w) in
  let result := sendBulk env clock gen dto w in
  userRateLimits result.2 = run.2
  ∧ result.1 =
      length (filter (λ p : string * bool,
                        p.2 = true
                        ∧ canSendNotification env p.1 (BulkDto.workspaceId dto)
                            (BulkDto.type dto) = true)
                     (zip (BulkDto.userIds dto) run.1))
  ∧ (BulkDto.userIds dto = [] → result = (0%nat, w)).
Proof.
  intros calls run result. subst calls run result. unfold sendBulk.
  destruct (bulkAdmit_run env clock dto (BulkDto.userIds dto) 0 (userRateLimits w))
    as [Hlimits Hvalid]. cbv zeta in *.
  rewrite (imap_ext _ (λ j user, (user, clock j))) in Hlimits, Hvalid by done.
  destruct (bulkAdmit env clock 0 dto (BulkDto.userIds dto) (userRateLimits w))
    as [valid limits] eqn:Hadmit. simpl in Hlimits, Hvalid.
  set (rowsOf := imap (λ j user, (newId (gen j), bulkRow dto user (newCreatedAt (gen j)))) valid).
  destruct (foldl_save rowsOf (setRateLimits limits w)) as (_ & Hl1 & _).
  destruct (foldl_queueAdd rowsOf
              (foldl (λ w notification, save notification w) (setRateLimits limits w) rowsOf))
    as (_ & Hl2 & _).
  cbv zeta in *. cbn [fst snd].
  split; [by rewrite Hl2, Hl1|]. split.
  - unfold rowsOf. by rewrite length_imap, Hvalid, length_fmap.
  - intros Hnil. rewrite Hnil in Hadmit. simpl in Hadmit. injection Hadmit as <- <-.
    unfold rowsOf. simpl. by destruct w.
Qed.

(** ** The push payload and the push provider *)

Lemma truthy_Some_true s : truthy (Some s) = true ↔ s ≠ "".
Proof. simpl. destruct (String.eqb_spec s ""); naive_solver. Qed.

(** X20.  The payload of a push always carries the record's id under
    the key [notificationId], even when [data] has an entry of that name,
    and a truthy [actionUrl] under [actionUrl]; every other entry of
    [data] is carried as text, strings unchanged; the priority is "high"
    for urgent and high notifications and "normal" for all others; title,
    body and image are the record's. *)
Theorem pushPayload_contents (id : string) (n : Notification) :
  let payload := pushPayload (id, n) in
  Firebase.data payload !! "notificationId" = Some id
  ∧ (truthy (actionUrl n) = true → Firebase.data payload !! "actionUrl" = actionUrl n)
  ∧ (∀ d key value, data n = Some d → d !! key = Some value →
       key ≠ "notificationId" → (key ≠ "actionUrl" ∨ truthy (actionUrl n) = false) →
       Firebase.data payload !! key = Some (stringifyValue value))
  ∧ (∀ d key s, data n = Some d → d !! key = Some (JString s) →
       key ≠ "notificationId" → (key ≠ "actionUrl" ∨ truthy (actionUrl n) = false) →
       Firebase.data payload !! key = Some s)
  ∧ (Firebase.priority payload = "high" ↔
       priority n = Some "urgent" ∨ priority n = Some "high")
  ∧ (Firebase.priority payload ≠ "high" → Firebase.priority payload = "normal")
  ∧ Firebase.title payload = title n
  ∧ Firebase.body payload = body n
  ∧ Firebase.imageUrl payload = imageUrl n.
Proof.
  intros payload. subst payload. unfold pushPayload. cbn [Firebase.data Firebase.priority
    Firebase.title Firebase.body Firebase.imageUrl].
  assert (∀ d key value, data n = Some d → d !! key = Some value →
            key ≠ "notificationId" → (key ≠ "actionUrl" ∨ truthy (actionUrl n) = false) →
            (if truthy (actionUrl n)
             then <["actionUrl" := default "" (actionUrl n)]>
                    (<["notificationId" := id]>
                       match data n with Some d => stringifyValue <$> d | None => ∅ end)
             else <["notificationId" := id]>
                    match data n with Some d => stringifyValue <$> d | None => ∅ end)
              !! key = Some (stringifyValue value)) as Hdata.
  { intros d key value Hd Hk Hn Ha. rewrite Hd.
    destruct (truthy (actionUrl n)).
    - destruct Ha as [Ha|?]; [|done].
      rewrite lookup_insert_ne, lookup_insert_ne, lookup_fmap, Hk by done. done.
    - rewrite lookup_insert_ne, lookup_fmap, Hk by done. done. }
  split; [|split; [|split; [|split; [|split; [|split; [|done]]]]]].
  - destruct (truthy (actionUrl n)); [rewrite lookup_insert_ne by done|];
      apply lookup_insert_eq.
  - intros Ht. rewrite Ht, lookup_insert_eq. destruct (actionUrl n); [done|discriminate].
  - exact Hdata.
  - intros d key s Hd Hk Hn Ha. by rewrite (Hdata d key (JString s)).
  - repeat case_bool_decide; simpl; split; try done; try tauto; intros [?|?]; done.
  - repeat case_bool_decide; simpl; done.
Qed.

Lemma collectErrors_spec (tokens : list string) (resps : list Firebase.SendResponse) :
  ∀ idx,
    length (Firebase.collectErrors tokens idx resps) =
      length (filter (λ resp, Firebase.respSuccess resp = false) resps)
    ∧ Forall (λ e, Firebase.error e ≠ "") (Firebase.collectErrors tokens idx resps)
    ∧ ∀ i resp, resps !! i = Some resp → Firebase.respSuccess resp = false →
        tokens !! (idx + i)%nat ∈ Firebase.token <$> Firebase.collectErrors tokens idx resps.
Proof.
  induction resps as [|resp rest IH]; intros idx; [done|].
  destruct (IH (S idx)) as (Hlen & Hall & Hfailed). cbn [Firebase.collectErrors].
  rewrite filter_cons.
  destruct (Firebase.respSuccess resp) eqn:Hok.
  - rewrite decide_False by done. split; [done|]. split; [done|].
    intros [|i] resp' Hi Hfail; simpl in Hi.
    + injection Hi as <-. congruence.
    + replace (idx + S i)%nat with (S idx + i)%nat by lia. by eapply Hfailed.
  - rewrite decide_True by done. split; [simpl; by rewrite Hlen|]. split.
    + constructor; [|done]. simpl.
      destruct (truthy (Firebase.respErrorMessage resp)) eqn:Ht; [|done].
      destruct (Firebase.respErrorMessage resp) as [m|]; [|done]. simpl.
      by apply truthy_Some_true.
    + intros [|i] resp' Hi Hfail; simpl in Hi.
      * rewrite Nat.add_0_r. rewrite fmap_cons. by left.
      * replace (idx + S i)%nat with (S idx + i)%nat by lia. rewrite fmap_cons. right.
        by eapply Hfailed.
Qed.

(** X21.  What [sendToDevices] reports.  The failed tokens are the
    tokens of the reported errors, in order.  Without initialisation
    every token is reported failed with "Firebase not initialized";
    initialised and with no token it reports success with all counts 0;
    in both cases the SDK is not consulted.  When the SDK answers, the
    counts are the SDK's, [success] holds exactly when its failure count
    is 0, there is one error per failed response, with a non-empty text,
    and the token at the position of every failed response is among the
    failed tokens.  When the SDK throws, every token is reported failed
    with the error's message. *)
Theorem sendToDevices_report (initialized : bool)
    (sdk : list string → Firebase.PushPayload → string + Firebase.BatchResponse)
    (tokens : list string) (payload : Firebase.PushPayload) :
  let result := Firebase.sendToDevices initialized sdk tokens payload in
  let allFailed message :=
    {| Firebase.success := false; Firebase.successCount := 0;
       Firebase.failureCount := Z.of_nat (length tokens);
       Firebase.failedTokens := Some <$> tokens;
       Firebase.errors :=
         (λ token, {| Firebase.token := Some token; Firebase.error := message |}) <$> tokens |} in
  Firebase.failedTokens result = Firebase.token <$> Firebase.errors result
  ∧ (initialized = false → result = allFailed "Firebase not initialized")
  ∧ (initialized = true → tokens = [] →
       result = {| Firebase.success := true; Firebase.successCount := 0;
                   Firebase.failureCount := 0; Firebase.failedTokens := [];
                   Firebase.errors := [] |})
  ∧ (initialized = false ∨ tokens = [] →
       ∀ sdk', Firebase.sendToDevices initialized sdk' tokens payload = result)
  ∧ (∀ message, initialized = true → tokens ≠ [] → sdk tokens payload = inl message →
       result = allFailed message)
  ∧ (∀ response, initialized = true → tokens ≠ [] → sdk tokens payload = inr response →
       Firebase.successCount result = Firebase.batchSuccessCount response
       ∧ Firebase.failureCount result = Firebase.batchFailureCount response
       ∧ (Firebase.success result = true ↔ Firebase.batchFailureCount response = 0)
       ∧ length (Firebase.errors result) =
           length (filter (λ resp, Firebase.respSuccess resp = false)
                          (Firebase.responses response))
       ∧ Forall (λ e, Firebase.error e ≠ "") (Firebase.errors result)
       ∧ ∀ i resp, Firebase.responses response !! i = Some resp →
           Firebase.respSuccess resp = false →
           tokens !! i ∈ Firebase.failedTokens result).
Proof.
  intros result allFailed. subst result allFailed. unfold Firebase.sendToDevices.
  split; [|split; [|split; [|split; [|split]]]].
  - destruct initialized; simpl.
    + case_bool_decide; simpl; [done|].
      destruct (sdk tokens payload); simpl; [|done].
      rewrite <- list_fmap_compose. by apply list_fmap_ext.
    + rewrite <- list_fmap_compose. by apply list_fmap_ext.
  - by intros ->.
  - intros -> ->. done.
  - intros [->| ->] sdk'; [done|]. by destruct initialized.
  - intros message -> Hne ->. simpl. rewrite bool_decide_eq_false_2; [done|].
    by destruct tokens.
  - intros response -> Hne ->. simpl. rewrite bool_decide_eq_false_2 by (by destruct tokens).
    simpl. destruct (collectErrors_spec tokens (Firebase.responses response) 0)
      as (Hlen & Hall & Hfailed).
    split; [done|]. split; [done|]. split; [apply Z.eqb_eq|].
    split; [done|]. split; [done|]. intros i resp Hi Hfail. by apply (Hfailed i resp).
Qed.

(** X22.  [sendToDevice] accounts for exactly one destination: the two
    counts add up to 1, [success] holds exactly when the provider is
    initialised and the SDK accepts the message, and otherwise the token
    is the one failed token, with "Firebase not initialized" or the
    message of the SDK's error as text.  Without initialisation the SDK
    is not consulted. *)
Theorem sendToDevice_report (initialized : bool)
    (sdkSend : string → Firebase.PushPayload → string + string)
    (token : string) (payload : Firebase.PushPayload) :
  let result := sendToDevice initialized sdkSend token payload in
  Firebase.successCount result + Firebase.failureCount result = 1
  ∧ (Firebase.success result = true ↔
       initialized = true ∧ ∃ messageId, sdkSend token payload = inr messageId)
  ∧ (Firebase.success result = true →
       Firebase.successCount result = 1 ∧ Firebase.failedTokens result = []
       ∧ Firebase.errors result = [])
  ∧ (Firebase.success result = false →
       Firebase.failureCount result = 1 ∧ Firebase.failedTokens result = [Some token]
       ∧ ∃ text, Firebase.errors result =
                   [ {| Firebase.token := Some token; Firebase.error := text |} ]
                 ∧ (initialized = false → text = "Firebase not initialized")
                 ∧ (initialized = true → sdkSend token payload = inl text))
  ∧ (initialized = false →
       ∀ sdkSend', sendToDevice initialized sdkSend' token payload = result).
Proof.
  intros result. subst result. unfold sendToDevice.
  destruct initialized; simpl.
  - destruct (sdkSend token payload) as [message|messageId] eqn:Hsdk; simpl.
    + split; [done|]. split; [split; [done|by intros [_ [? ?]]]|].
      split; [done|]. split; [|done]. intros _. do 2 (split; [done|]).
      exists message. split; [done|]. split; [done|]. by intros _.
    + split; [done|]. split; [split; [eauto|done]|]. split; [done|]. split; [done|done].
  - split; [done|]. split; [split; [done|by intros [? _]]|]. split; [done|].
    split; [|done]. intros _. do 2 (split; [done|]).
    eexists. split; [done|]. split; [done|]. done.
Qed.

(** ** The SMS provider *)

Lemma keepDigitsAndPlus_Forall phone :
  Forall (λ c, SmsProvider.isDigit c = true ∨ c = SmsProvider.plus)
         (SmsProvider.keepDigitsAndPlus phone).
Proof.
  unfold SmsProvider.keepDigitsAndPlus. apply Forall_forall. intros c Hc.
  apply list_elem_of_In, filter_In in Hc as [_ Hc].
  apply orb_true_iff in Hc as [?|Hc]; [by left|]. right. by apply N.eqb_eq.
Qed.

Lemma keepDigitsAndPlus_fixed phone :
  Forall (λ c, SmsProvider.isDigit c = true ∨ c = SmsProvider.plus) phone →
  SmsProvider.keepDigitsAndPlus phone = phone.
Proof.
  unfold SmsProvider.keepDigitsAndPlus. induction 1 as [|c l Hc Hl IH]; [done|].
  simpl. rewrite IH.
  destruct Hc as [->| ->]; [done|]. by rewrite N.eqb_refl, orb_true_r.
Qed.

Lemma keepDigitsAndPlus_digits phone :
  List.filter SmsProvider.isDigit (SmsProvider.keepDigitsAndPlus phone) =
    List.filter SmsProvider.isDigit phone.
Proof.
  unfold SmsProvider.keepDigitsAndPlus. induction phone as [|c l IH]; [done|]. simpl.
  destruct (SmsProvider.isDigit c) eqn:Hd; simpl; [by rewrite Hd, IH|].
  destruct (c =? SmsProvider.plus)%N; simpl; [by rewrite Hd|done].
Qed.

Lemma formatPhoneNumber_shape phone :
  SmsProvider.startsWithPlus (SmsProvider.formatPhoneNumber phone) = true
  ∧ Forall (λ c, SmsProvider.isDigit c = true ∨ c = SmsProvider.plus)
           (SmsProvider.formatPhoneNumber phone).
Proof.
  unfold SmsProvider.formatPhoneNumber.
  pose proof (keepDigitsAndPlus_Forall phone) as Hk.
  destruct (SmsProvider.startsWithPlus (SmsProvider.keepDigitsAndPlus phone)) eqn:Hs;
    simpl; [done|].
  split; [done|]. constructor; [by right|done].
Qed.

(** X23.  [formatPhoneNumber] returns a string that starts with [+] and
    holds nothing but digits and [+]; the digits of the input are all
    kept, in order; formatting a formatted number changes nothing, and
    neither does formatting a number that already starts with [+] and
    holds only digits and [+]. *)
Theorem formatPhoneNumber_format (phone : list N) :
  let formatted := SmsProvider.formatPhoneNumber phone in
  SmsProvider.startsWithPlus formatted = true
  ∧ Forall (λ c, SmsProvider.isDigit c = true ∨ c = SmsProvider.plus) formatted
  ∧ List.filter SmsProvider.isDigit formatted = List.filter SmsProvider.isDigit phone
  ∧ SmsProvider.formatPhoneNumber formatted = formatted
  ∧ (SmsProvider.startsWithPlus phone = true →
     Forall (λ c, SmsProvider.isDigit c = true ∨ c = SmsProvider.plus) phone →
     formatted = phone).
Proof.
  intros formatted. subst formatted.
  assert (∀ p, SmsProvider.startsWithPlus p = true →
            Forall (λ c, SmsProvider.isDigit c = true ∨ c = SmsProvider.plus) p →
            SmsProvider.formatPhoneNumber p = p) as Hfixed.
  { intros p Hplus Hall. unfold SmsProvider.formatPhoneNumber.
    rewrite keepDigitsAndPlus_fixed by done. by rewrite Hplus. }
  destruct (formatPhoneNumber_shape phone) as [Hplus Hall].
  split; [done|]. split; [done|]. split; [|split; [by apply Hfixed|by apply Hfixed]].
  unfold SmsProvider.formatPhoneNumber.
  destruct (negb (SmsProvider.startsWithPlus (SmsProvider.keepDigitsAndPlus phone)));
    [change (List.filter SmsProvider.isDigit
               (SmsProvider.plus :: SmsProvider.keepDigitsAndPlus phone))
       with (List.filter SmsProvider.isDigit (SmsProvider.keepDigitsAndPlus phone))|];
    apply keepDigitsAndPlus_digits.
Qed.

Lemma ceilDiv_bounds (n d : nat) :
  (0 < d)%nat → (0 < n)%nat →
  (d * (SmsProvider.ceilDiv n d - 1) < n ∧ n ≤ d * SmsProvider.ceilDiv n d)%nat.
Proof.
  intros Hd Hn. unfold SmsProvider.ceilDiv.
  pose proof (Nat.div_mod_eq (n + d - 1) d) as Heq.
  pose proof (Nat.mod_upper_bound (n + d - 1) d) as Hmod.
  assert (1 ≤ (n + d - 1) `div` d)%nat by (apply Nat.div_le_lower_bound; lia).
  nia.
Qed.

(** X24.  [getSegmentCount] is at least 1.  A body with a character
    outside ASCII counts as one segment up to 70 characters and beyond
    that as the least number of segments of 67 characters that hold it;
    a body of ASCII characters counts as one segment up to 160
    characters and beyond that as the least number of segments of 153
    characters that hold it. *)
Theorem getSegmentCount_segments (body : list N) :
  let segments := SmsProvider.getSegmentCount body in
  let perSegment := if existsb (λ c, (127 <? c)%N) body then 67%nat else 153%nat in
  let single := if existsb (λ c, (127 <? c)%N) body then 70%nat else 160%nat in
  (1 ≤ segments)%nat
  ∧ ((length body ≤ single)%nat → segments = 1%nat)
  ∧ ((single < length body)%nat →
       (perSegment * (segments - 1) < length body ≤ perSegment * segments)%nat
       ∧ (2 ≤ segments)%nat)
  ∧ (existsb (λ c, (127 <? c)%N) body = true ↔ ∃ c, c ∈ body ∧ (127 < c)%N).
Proof.
  intros segments perSegment single. subst segments perSegment single.
  unfold SmsProvider.getSegmentCount.
  split; [|split; [|split]].
  - destruct (existsb _ body); case_bool_decide; try lia.
    + pose proof (ceilDiv_bounds (length body) 67). nia.
    + pose proof (ceilDiv_bounds (length body) 153). nia.
  - intros Hle. destruct (existsb _ body); by rewrite bool_decide_eq_true_2.
  - intros Hlt. destruct (existsb _ body); rewrite bool_decide_eq_false_2 by lia.
    + pose proof (ceilDiv_bounds (length body) 67). nia.
    + pose proof (ceilDiv_bounds (length body) 153). nia.
  - rewrite existsb_exists. split.
    + intros (c & Hc & Hgt). exists c. split; [by apply list_elem_of_In|by apply N.ltb_lt].
    + intros (c & Hc & Hgt). exists c. split; [by apply list_elem_of_In|by apply N.ltb_lt].
Qed.

(** X25.  [sendSms] succeeds exactly when there is a Twilio client,
    there is a sender (the payload's [from] or the configured default)
    and the client accepts the message; the result then carries the
    message's sid and status and no error.  In every other case it
    reports an error text: "Twilio client not initialized" without a
    client, "No sender phone number configured" without a sender (the
    client is then not consulted), the message of the client's error
    otherwise.  What the client is handed has a destination that starts
    with [+], and a non-empty sender whenever the call is made. *)
Theorem sendSms_report
    (client : option (SmsProvider.MessageOptions → string + (string * string)))
    (defaultFrom : string) (payload : SmsProvider.SmsPayload) :
  let result := SmsProvider.sendSms client defaultFrom payload in
  let options := SmsProvider.messageOptions defaultFrom payload in
  let hasSender := defaultFrom ≠ "" ∨ truthy (SmsProvider.from payload) = true in
  (SmsProvider.success result = true ↔
     hasSender ∧ ∃ create sid st, client = Some create ∧ create options = inr (sid, st))
  ∧ (∀ create sid st, client = Some create → hasSender → create options = inr (sid, st) →
       result = {| SmsProvider.success := true; SmsProvider.messageId := Some sid;
                   SmsProvider.status := Some st; SmsProvider.error := None |})
  ∧ (SmsProvider.success result = false →
       SmsProvider.messageId result = None ∧ ∃ text, SmsProvider.error result = Some text)
  ∧ (client = None → SmsProvider.error result = Some "Twilio client not initialized")
  ∧ (¬ hasSender → ∀ create,
       SmsProvider.error (SmsProvider.sendSms (Some create) defaultFrom payload)
         = Some "No sender phone number configured")
  ∧ (∀ create message, client = Some create → hasSender → create options = inl message →
       SmsProvider.error result = Some message)
  ∧ SmsProvider.startsWithPlus (SmsProvider.optTo options) = true
  ∧ (hasSender → SmsProvider.optFrom options ≠ "").
Proof.
  intros result options hasSender. subst result.
  assert (negb (truthy (Some defaultFrom)) && negb (truthy (SmsProvider.from payload)) = false
          ↔ hasSender) as Hsender.
  { unfold hasSender. rewrite andb_false_iff, !negb_false_iff, truthy_Some_true. done. }
  unfold SmsProvider.sendSms.
  split; [|split; [|split; [|split; [|split; [|split; [|split]]]]]].
  - destruct client as [create|]; [|split; [done|by intros (_ & ? & ? & ? & ? & _)]].
    destruct (negb _ && negb _) eqn:Hs.
    + split; [done|]. intros [Hh _]. by apply Hsender in Hh.
    + assert hasSender as Hh by (by apply Hsender). fold options.
      destruct (create options) as [message|[sid st]] eqn:Hc; simpl.
      * split; [done|]. intros (_ & ? & ? & ? & [= <-] & ?). congruence.
      * split; [|done]. intros _. split; [done|]. by exists create, sid, st.
  - intros create sid st -> Hh Hc. apply Hsender in Hh. rewrite Hh. fold options.
    by rewrite Hc.
  - destruct client as [create|]; [|simpl; eauto].
    destruct (negb _ && negb _); [simpl; eauto|]. fold options.
    destruct (create options) as [message|[sid st]]; simpl; [eauto|done].
  - by intros ->.
  - intros Hno create.
    destruct (negb _ && negb _) eqn:Hs; [done|]. exfalso. apply Hno. by apply Hsender.
  - intros create message -> Hh Hc. apply Hsender in Hh. rewrite Hh. fold options.
    by rewrite Hc.
  - subst options. simpl. by destruct (formatPhoneNumber_shape (SmsProvider.to payload)).
  - intros [Hd|Hf]; subst options; simpl.
    + destruct (truthy (SmsProvider.from payload)) eqn:Hf; [|done].
      destruct (SmsProvider.from payload) as [f|]; [|done]. by apply truthy_Some_true.
    + rewrite Hf. destruct (SmsProvider.from payload) as [f|]; [|done].
      by apply truthy_Some_true.
Qed.

(** ** Initialisation of the push provider *)

(** X26.  The push provider is initialised exactly when the three
    credentials are all present and non-empty and either an app exists
    already or creating one does not throw.  With a credential missing or
    empty, processing a push notification that has not expired and whose
    user has devices returns normally, and the stored record has status
    FAILED, [errorMessage] "Firebase not initialized" and [sentAt] the
    instant read for it; [retryCount] and the content are as before. *)
Theorem firebase_initialization (projectId privateKey clientEmail : option string)
    (appsLength : nat) (initializeApp : ServiceAccount → option string) :
  let initialized :=
    initializeFirebase projectId privateKey clientEmail appsLength initializeApp in
  let account :=
    {| projectId := default "" projectId;
       privateKey := unescapeNewlines (default "" privateKey);
       clientEmail := default "" clientEmail |} in
  (initialized = true ↔
     truthy projectId = true ∧ truthy privateKey = true ∧ truthy clientEmail = true
     ∧ (appsLength ≠ 0%nat ∨ initializeApp account = None))
  ∧ (truthy projectId = false ∨ truthy privateKey = false ∨ truthy clientEmail = false →
       ∀ env tExpiry tDelivered tSent notificationId w n devices,
         firebaseInitialized env = initialized →
         notificationRepo w !! notificationId = Some n →
         type n = PUSH → isExpired n tExpiry = false →
         getUserDevices env (userId n) = inr devices → devices ≠ [] →
         let result := processNotification env tExpiry tDelivered tSent notificationId w in
         result.1 = Returned ()
         ∧ ∃ n', notificationRepo result.2 = <[notificationId := n']> (notificationRepo w)
                 ∧ status n' = FAILED
                 ∧ errorMessage n' = Some "Firebase not initialized"
                 ∧ sentAt n' = Some tSent
                 ∧ retryCount n' = retryCount n
                 ∧ sameContent n n').
Proof.
  intros initialized account. subst initialized. unfold initializeFirebase. split.
  - destruct (truthy projectId), (truthy privateKey), (truthy clientEmail); simpl;
      try (split; [done|by intros (? & ? & ? & _)]).
    case_bool_decide as Happs.
    + fold account. destruct (initializeApp account) eqn:Hinit.
      * split; [done|]. intros (_ & _ & _ & [?|?]); done.
      * split; [|done]. intros _. auto.
    + split; [|done]. intros _. auto.
  - intros Hmissing env tExpiry tDelivered tSent notificationId w n devices
      Hinit Hrow Htype Hlive Hdev Hsome. cbv zeta.
    rewrite (process_push_with_devices env tExpiry tDelivered tSent notificationId w n devices)
      by done.
    assert (firebaseInitialized env = false) as ->.
    { rewrite Hinit. destruct Hmissing as [->|[->| ->]]; simpl; by rewrite ?orb_true_r. }
    unfold Firebase.sendToDevices. cbn [negb fst snd Firebase.success Firebase.successCount
                                        Firebase.errors].
    split; [done|]. destruct devices as [|d rest]; [done|].
    eexists. split; [reflexivity|]. repeat (split; [reflexivity|]). same_content.
Qed.

Lemma firebase_initialization_witness :
  firebaseInitialized unconfiguredEnv = false
  ∧ let result := processNotification unconfiguredEnv 1000 1001 1002 "n1" sampleWorld in
    result.1 = Returned ()
    ∧ (status <$> notificationRepo result.2 !! "n1") = Some FAILED
    ∧ (errorMessage <$> notificationRepo result.2 !! "n1")
        = Some (Some "Firebase not initialized")
    ∧ (sentAt <$> notificationRepo result.2 !! "n1") = Some (Some 1002).
Proof.
  destruct (firebase_initialization (Some "quckapp") None (Some "push@quckapp.example") 0
              (λ _, None)) as [Hiff Hpush].
  split.
  - destruct (firebaseInitialized unconfiguredEnv) eqn:Hinit; [|reflexivity].
    apply Hiff in Hinit as (_ & Hkey & _). discriminate Hkey.
  - destruct (Hpush (or_intror (or_introl eq_refl)) unconfiguredEnv 1000 1001 1002 "n1"
                sampleWorld
                (sampleRow "alice" (Some "ws-1") PUSH "hello" QUEUED None None None 10)
                sampleTokens)
      as (Hret & n' & Hrepo & Hst & Hmsg & Hsent & _);
      [reflexivity | reflexivity | reflexivity | reflexivity | reflexivity | discriminate |].
    cbv zeta. split; [exact Hret|]. rewrite Hrepo, lookup_insert_eq.
    cbn [fmap option_fmap option_map]. rewrite Hst, Hmsg, Hsent. repeat split; reflexivity.
Defined.

(** ** Every call of [send] counts *)

(** X27.  Every call of [send] makes one call on the rate limiter,
    whether or not a notification results: after any run of calls the
    rate-limit map is that of the rate limiter run on the calls' users
    and instants; a call the rate limiter rejects returns [null]; and a
    call that returns a notification was admitted by the rate limiter and
    allowed by the preference gate.  So calls that the preference gate
    denies still use up the user's window. *)
Theorem send_counts_every_call (env : Collaborators)
    (requests : list (Z * Generated * Dto.SendNotificationDto)) (w : World) :
  let calls := (λ r : Z * Generated * Dto.SendNotificationDto,
                  (Dto.userId r.2, r.1.1)) <$> requests in
  let run := checkRateLimitCalls calls (userRateLimits w) in
  let result := sendAll env requests w in
  userRateLimits result.2 = run.2
  ∧ length result.1 = length requests
  ∧ (∀ i, run.1 !! i = Some false → result.1 !! i = Some None)
  ∧ (∀ i response now gen dto,
       result.1 !! i = Some (Some response) → requests !! i = Some (now, gen, dto) →
       run.1 !! i = Some true
       ∧ canSendNotification env (Dto.userId dto) (Dto.workspaceId dto) (Dto.type dto) = true).
Proof.
  revert w. induction requests as [|[[now gen] dto] rest IH]; intros w; [done|].
  cbv zeta. cbn [sendAll fmap list_fmap checkRateLimitCalls fst snd].
  assert (userRateLimits (send env now gen dto w).2 =
            (checkRateLimit now (Dto.userId dto) (userRateLimits w)).2
          ∧ ((checkRateLimit now (Dto.userId dto) (userRateLimits w)).1 = false →
               (send env now gen dto w).1 = None)
          ∧ (∀ response, (send env now gen dto w).1 = Some response →
               (checkRateLimit now (Dto.userId dto) (userRateLimits w)).1 = true
               ∧ canSendNotification env (Dto.userId dto) (Dto.workspaceId dto)
                   (Dto.type dto) = true)) as (Hlimits & Hreject & Hadmit).
  { unfold send.
    destruct (checkRateLimit now (Dto.userId dto) (userRateLimits w)) as [admitted limits].
    destruct admitted; cbn [negb fst snd]; [|done].
    destruct (canSendNotification env _ _ _); cbn [negb fst snd]; [|done].
    split; [|done]. by destruct (isPresent (Dto.scheduledAt dto)). }
  destruct (send env now gen dto w) as [response w1].
  destruct (checkRateLimit now (Dto.userId dto) (userRateLimits w)) as [ok m1].
  cbn [fst snd] in *. specialize (IH w1). cbv zeta in IH. rewrite Hlimits in IH.
  destruct (sendAll env rest w1) as [responses w2].
  destruct (checkRateLimitCalls _ m1) as [oks m2].
  cbn [fst snd] in *. destruct IH as (IH1 & IH2 & IH3 & IH4).
  split; [done|]. split; [simpl; by rewrite IH2|]. split.
  - intros [|i] Hi; simpl in *; [|by apply IH3].
    injection Hi as ->. by rewrite Hreject.
  - intros [|i] resp now' gen' dto' Hr Hreq; simpl in *; [|by eapply IH4].
    injection Hr as ->. injection Hreq as <- <- <-.
    destruct (Hadmit resp eq_refl) as [-> ?]. done.
Qed.
